(** * Camera controls and orbital motion of the solar-system viewer

    A shallow embedding of [orbit-controls.js] (the standalone
    [OrbitControls] class) and of the motion, pause, focus and speed-slider
    parts of the [SolarSystem] class.

    Numbers.  JavaScript numbers are modelled by [jsnum]: a finite value
    carried as an exact real, or one of the IEEE special values +Infinity,
    -Infinity and NaN, with the ECMAScript rules for how the special values
    propagate through the operators the code uses.  Rounding is not modelled
    (finite results are exact), and zero is taken as +0: every zero this
    code divides by (a pinch distance from [Math.sqrt], a viewport height)
    is +0. *)

From Stdlib Require Import Reals Lra Lia List String ZArith.
Import ListNotations.
Open Scope R_scope.

(* ------------------------------------------------------------------ *)
(** ** JavaScript numbers *)

Inductive jsnum : Type :=
| Fin (r : R)
| PosInf
| NegInf
| NaN.

(** Sign of a finite value, as a comparison with 0. *)
Definition rsign (r : R) : comparison :=
  match total_order_T r 0 with
  | inleft (left _) => Lt
  | inleft (right _) => Eq
  | inright _ => Gt
  end.

Definition jneg (a : jsnum) : jsnum :=
  match a with
  | Fin r => Fin (- r)
  | PosInf => NegInf
  | NegInf => PosInf
  | NaN => NaN
  end.

Definition jadd (a b : jsnum) : jsnum :=
  match a, b with
  | NaN, _ | _, NaN => NaN
  | Fin x, Fin y => Fin (x + y)
  | PosInf, NegInf | NegInf, PosInf => NaN
  | PosInf, _ | _, PosInf => PosInf
  | NegInf, _ | _, NegInf => NegInf
  end.

Definition jsub (a b : jsnum) : jsnum :=
  match a, b with
  | Fin x, Fin y => Fin (x - y)
  | _, _ => jadd a (jneg b)
  end.

(** An infinity times a finite value: NaN for zero, otherwise an infinity
    whose sign is the product of the signs. *)
Definition inf_times (i : jsnum) (x : R) : jsnum :=
  match rsign x with
  | Eq => NaN
  | Gt => i
  | Lt => jneg i
  end.

Definition jmul (a b : jsnum) : jsnum :=
  match a, b with
  | NaN, _ | _, NaN => NaN
  | Fin x, Fin y => Fin (x * y)
  | Fin x, i | i, Fin x => inf_times i x
  | PosInf, PosInf | NegInf, NegInf => PosInf
  | _, _ => NegInf
  end.

Definition jdiv (a b : jsnum) : jsnum :=
  match a, b with
  | NaN, _ | _, NaN => NaN
  | Fin x, Fin y =>
      match rsign y with
      | Eq => match rsign x with Eq => NaN | Gt => PosInf | Lt => NegInf end
      | _ => Fin (x / y)
      end
  | Fin _, _ => Fin 0
  | i, Fin y => match rsign y with Lt => jneg i | _ => i end
  | _, _ => NaN
  end.

(** [Math.sqrt] *)
Definition jsqrt (a : jsnum) : jsnum :=
  match a with
  | Fin r => match rsign r with Lt => NaN | _ => Fin (sqrt r) end
  | PosInf => PosInf
  | _ => NaN
  end.

(** [Math.min] and [Math.max] with two arguments. *)
Definition jmin (a b : jsnum) : jsnum :=
  match a, b with
  | NaN, _ | _, NaN => NaN
  | Fin x, Fin y => Fin (Rmin x y)
  | NegInf, _ | _, NegInf => NegInf
  | PosInf, y => y
  | x, PosInf => x
  end.

Definition jmax (a b : jsnum) : jsnum :=
  match a, b with
  | NaN, _ | _, NaN => NaN
  | Fin x, Fin y => Fin (Rmax x y)
  | PosInf, _ | _, PosInf => PosInf
  | NegInf, y => y
  | x, NegInf => x
  end.

(** The relation [a <= b] of JavaScript: false as soon as NaN is involved. *)
Definition jle (a b : jsnum) : Prop :=
  match a, b with
  | NaN, _ | _, NaN => False
  | Fin x, Fin y => x <= y
  | NegInf, _ | _, PosInf => True
  | _, _ => False
  end.

(** [a < b] as a boolean. *)
Definition jltb (a b : jsnum) : bool :=
  match a, b with
  | NaN, _ | _, NaN => false
  | Fin x, Fin y => if Rlt_dec x y then true else false
  | NegInf, NegInf | PosInf, PosInf => false
  | NegInf, _ | _, PosInf => true
  | _, _ => false
  end.

(** [a === b] *)
Definition jeqb (a b : jsnum) : bool :=
  match a, b with
  | Fin x, Fin y => if Req_dec_T x y then true else false
  | PosInf, PosInf | NegInf, NegInf => true
  | _, _ => false
  end.

(** [Math.sin], [Math.cos], [Math.tan]: NaN on the non-finite values. *)
Definition jsin (a : jsnum) : jsnum :=
  match a with Fin r => Fin (sin r) | _ => NaN end.
Definition jcos (a : jsnum) : jsnum :=
  match a with Fin r => Fin (cos r) | _ => NaN end.
Definition jtan (a : jsnum) : jsnum :=
  match a with Fin r => Fin (tan r) | _ => NaN end.

(** [Math.acos]: NaN outside [-1, 1]. *)
Definition jacos (a : jsnum) : jsnum :=
  match a with
  | Fin r => if Rle_dec (-1) r then if Rle_dec r 1 then Fin (acos r) else NaN
             else NaN
  | _ => NaN
  end.

(** [Math.atan2(y, x)] on finite arguments. *)
Definition Ratan2 (y x : R) : R :=
  match rsign x with
  | Gt => atan (y / x)
  | Lt => match rsign y with
          | Lt => atan (y / x) - PI
          | _ => atan (y / x) + PI
          end
  | Eq => match rsign y with
          | Gt => PI / 2
          | Lt => - (PI / 2)
          | Eq => 0
          end
  end.

Definition jatan2 (y x : jsnum) : jsnum :=
  match y, x with
  | NaN, _ | _, NaN => NaN
  | Fin a, Fin b => Fin (Ratan2 a b)
  | Fin _, PosInf => Fin 0
  | Fin a, NegInf => match rsign a with Lt => Fin (- PI) | _ => Fin PI end
  | PosInf, Fin _ => Fin (PI / 2)
  | NegInf, Fin _ => Fin (- (PI / 2))
  | PosInf, PosInf => Fin (PI / 4)
  | PosInf, NegInf => Fin (3 * PI / 4)
  | NegInf, PosInf => Fin (- (PI / 4))
  | NegInf, NegInf => Fin (- (3 * PI / 4))
  end.

(** [Math.pow(x, 0.1)], the exponent taken as the exact 1/10. *)
Definition jpow_tenth (a : jsnum) : jsnum :=
  match a with
  | NaN => NaN
  | PosInf | NegInf => PosInf
  | Fin r => match rsign r with
             | Gt => Fin (Rpower r (1 / 10))
             | Eq => Fin 0
             | Lt => NaN
             end
  end.

(** JavaScript truthiness of a number, used by [length() || 1]. *)
Definition jtruthy (a : jsnum) : bool :=
  match a with
  | Fin r => if Req_dec_T r 0 then false else true
  | NaN => false
  | _ => true
  end.

Definition jfin (a : jsnum) : Prop := exists r, a = Fin r.

(* ------------------------------------------------------------------ *)
(** ** three.js value types: Vector2, Vector3, Spherical, Quaternion *)

Record vec2 := V2 { v2x : jsnum; v2y : jsnum }.
Record vec3 := V3 { vx : jsnum; vy : jsnum; vz : jsnum }.
Record spherical := Sph { sph_radius : jsnum; sph_phi : jsnum; sph_theta : jsnum }.
Record quaternion := Quat { qx : jsnum; qy : jsnum; qz : jsnum; qw : jsnum }.

Definition vec2_of (x y : R) : vec2 := V2 (Fin x) (Fin y).
Definition vec3_of (x y z : R) : vec3 := V3 (Fin x) (Fin y) (Fin z).
Definition vzero : vec3 := vec3_of 0 0 0.

Definition vfin (v : vec3) : Prop := jfin (vx v) /\ jfin (vy v) /\ jfin (vz v).

(** [subVectors(a, b).multiplyScalar(k)] on Vector2 *)
Definition vec2_sub_scale (a b : vec2) (k : jsnum) : vec2 :=
  V2 (jmul (jsub (v2x a) (v2x b)) k) (jmul (jsub (v2y a) (v2y b)) k).

Definition vadd (a b : vec3) : vec3 :=
  V3 (jadd (vx a) (vx b)) (jadd (vy a) (vy b)) (jadd (vz a) (vz b)).
Definition vsub (a b : vec3) : vec3 :=
  V3 (jsub (vx a) (vx b)) (jsub (vy a) (vy b)) (jsub (vz a) (vz b)).
(** [multiplyScalar] *)
Definition vscale (a : vec3) (k : jsnum) : vec3 :=
  V3 (jmul (vx a) k) (jmul (vy a) k) (jmul (vz a) k).
(** [crossVectors(a, b)] *)
Definition vcross (a b : vec3) : vec3 :=
  V3 (jsub (jmul (vy a) (vz b)) (jmul (vz a) (vy b)))
     (jsub (jmul (vz a) (vx b)) (jmul (vx a) (vz b)))
     (jsub (jmul (vx a) (vy b)) (jmul (vy a) (vx b))).
Definition vlength (a : vec3) : jsnum :=
  jsqrt (jadd (jadd (jmul (vx a) (vx a)) (jmul (vy a) (vy a))) (jmul (vz a) (vz a))).
(** [normalize()] is [divideScalar(this.length() || 1)], and
    [divideScalar(s)] is [multiplyScalar(1 / s)]. *)
Definition vnormalize (a : vec3) : vec3 :=
  let l := vlength a in
  vscale a (jdiv (Fin 1) (if jtruthy l then l else Fin 1)).
(** [distanceTo] *)
Definition vdistanceTo (a b : vec3) : jsnum :=
  let dx := jsub (vx a) (vx b) in
  let dy := jsub (vy a) (vy b) in
  let dz := jsub (vz a) (vz b) in
  jsqrt (jadd (jadd (jmul dx dx) (jmul dy dy)) (jmul dz dz)).
(** [a.lerp(b, t)]: [a.x += (b.x - a.x) * t] *)
Definition vlerp (a b : vec3) (t : jsnum) : vec3 :=
  V3 (jadd (vx a) (jmul (jsub (vx b) (vx a)) t))
     (jadd (vy a) (jmul (jsub (vy b) (vy a)) t))
     (jadd (vz a) (jmul (jsub (vz b) (vz a)) t)).
(** [lerpVectors(a, b, t)]: [x = a.x + (b.x - a.x) * t] *)
Definition vlerpVectors (a b : vec3) (t : jsnum) : vec3 := vlerp a b t.

(** [Vector3.applyQuaternion] *)
Definition applyQuaternion (v : vec3) (q : quaternion) : vec3 :=
  let x := vx v in let y := vy v in let z := vz v in
  let qx' := qx q in let qy' := qy q in let qz' := qz q in let qw' := qw q in
  let ix := jsub (jadd (jmul qw' x) (jmul qy' z)) (jmul qz' y) in
  let iy := jsub (jadd (jmul qw' y) (jmul qz' x)) (jmul qx' z) in
  let iz := jsub (jadd (jmul qw' z) (jmul qx' y)) (jmul qy' x) in
  let iw := jsub (jsub (jmul (jneg qx') x) (jmul qy' y)) (jmul qz' z) in
  V3 (jsub (jadd (jadd (jmul ix qw') (jmul iw (jneg qx'))) (jmul iy (jneg qz')))
           (jmul iz (jneg qy')))
     (jsub (jadd (jadd (jmul iy qw') (jmul iw (jneg qy'))) (jmul iz (jneg qx')))
           (jmul ix (jneg qz')))
     (jsub (jadd (jadd (jmul iz qw') (jmul iw (jneg qz'))) (jmul ix (jneg qy')))
           (jmul iy (jneg qx'))).

(** [MathUtils.clamp(v, lo, hi)] is [Math.max(lo, Math.min(hi, v))]. *)
Definition jclamp (v lo hi : jsnum) : jsnum := jmax lo (jmin hi v).

(** [Spherical.setFromVector3] (through [setFromCartesianCoords]) *)
Definition sph_of_vec (v : vec3) : spherical :=
  let x := vx v in let y := vy v in let z := vz v in
  let radius := jsqrt (jadd (jadd (jmul x x) (jmul y y)) (jmul z z)) in
  if jeqb radius (Fin 0) then Sph radius (Fin 0) (Fin 0)
  else Sph radius (jacos (jclamp (jdiv y radius) (Fin (-1)) (Fin 1))) (jatan2 x z).

(** [Vector3.setFromSpherical] (through [setFromSphericalCoords]) *)
Definition vec_of_sph (s : spherical) : vec3 :=
  let sinPhiRadius := jmul (jsin (sph_phi s)) (sph_radius s) in
  V3 (jmul sinPhiRadius (jsin (sph_theta s)))
     (jmul (jcos (sph_phi s)) (sph_radius s))
     (jmul sinPhiRadius (jcos (sph_theta s))).

(* ------------------------------------------------------------------ *)
(** ** OrbitControls (orbit-controls.js) *)

(** The camera's [up] vector is Object3D's default (0, 1, 0); this program
    never reassigns it.  [setFromUnitVectors(up, (0, 1, 0))] is then the
    identity quaternion (0, 0, 0, 1), and [invert()] of it (the conjugate)
    is the identity again. *)
Definition cam_up : vec3 := vec3_of 0 1 0.
Definition quat_identity : quaternion := Quat (Fin 0) (Fin 0) (Fin 0) (Fin 1).

(** Settings of the controller and the properties of the camera and of the
    DOM element it reads but never writes. *)
Record controls_cfg := {
  enabled : bool;
  enableDamping : bool;
  dampingFactor : jsnum;
  minDistance : jsnum;
  maxDistance : jsnum;
  autoRotate : bool;
  autoRotateSpeed : jsnum;
  cam_fov : jsnum;          (* camera.fov, in degrees *)
  clientHeight : jsnum      (* domElement.clientHeight *)
}.

(** [this.state]: NONE = -1, ROTATE = 0, DOLLY = 1, PAN = 2 *)
Inductive cstate := NONE | ROTATE | DOLLY | PAN.

Definition cstate_eqb (a b : cstate) : bool :=
  match a, b with
  | NONE, NONE | ROTATE, ROTATE | DOLLY, DOLLY | PAN, PAN => true
  | _, _ => false
  end.

(** The mutable state of a controller, with the camera position it writes.
    [listening] records whether the document-level [mousemove]/[mouseup]
    listeners are attached.  The scratch vectors [rotateEnd], [rotateDelta],
    [panEnd], [panDelta], [dollyEnd] and [dollyDelta] are always written
    before being read within one handler, so they are local [let]s here.
    The camera orientation set by [lookAt] is not modelled. *)
Record ctl := {
  cfg : controls_cfg;
  cam_pos : vec3;
  target : vec3;
  currentState : cstate;
  listening : bool;
  sph : spherical;
  sphericalDelta : spherical;
  panOffset : vec3;
  zoomChanged : bool;
  scale : jsnum;
  rotateStart : vec2;
  panStart : vec2;
  dollyStart : vec2
}.

Definition mk_ctl c p t st l s sd po zc sc rs ps ds : ctl :=
  {| cfg := c; cam_pos := p; target := t; currentState := st; listening := l;
     sph := s; sphericalDelta := sd; panOffset := po; zoomChanged := zc;
     scale := sc; rotateStart := rs; panStart := ps; dollyStart := ds |}.

Definition set_cfg (c : ctl) v := mk_ctl v (cam_pos c) (target c) (currentState c)
  (listening c) (sph c) (sphericalDelta c) (panOffset c) (zoomChanged c) (scale c)
  (rotateStart c) (panStart c) (dollyStart c).
Definition set_cam_pos (c : ctl) v := mk_ctl (cfg c) v (target c) (currentState c)
  (listening c) (sph c) (sphericalDelta c) (panOffset c) (zoomChanged c) (scale c)
  (rotateStart c) (panStart c) (dollyStart c).
Definition set_target (c : ctl) v := mk_ctl (cfg c) (cam_pos c) v (currentState c)
  (listening c) (sph c) (sphericalDelta c) (panOffset c) (zoomChanged c) (scale c)
  (rotateStart c) (panStart c) (dollyStart c).
Definition set_currentState (c : ctl) v := mk_ctl (cfg c) (cam_pos c) (target c) v
  (listening c) (sph c) (sphericalDelta c) (panOffset c) (zoomChanged c) (scale c)
  (rotateStart c) (panStart c) (dollyStart c).
Definition set_listening (c : ctl) v := mk_ctl (cfg c) (cam_pos c) (target c)
  (currentState c) v (sph c) (sphericalDelta c) (panOffset c) (zoomChanged c)
  (scale c) (rotateStart c) (panStart c) (dollyStart c).
Definition set_sphericalDelta (c : ctl) v := mk_ctl (cfg c) (cam_pos c) (target c)
  (currentState c) (listening c) (sph c) v (panOffset c) (zoomChanged c) (scale c)
  (rotateStart c) (panStart c) (dollyStart c).
Definition set_panOffset (c : ctl) v := mk_ctl (cfg c) (cam_pos c) (target c)
  (currentState c) (listening c) (sph c) (sphericalDelta c) v (zoomChanged c)
  (scale c) (rotateStart c) (panStart c) (dollyStart c).
(** [scale] is only ever written together with [zoomChanged = true]. *)
Definition set_scale_zoom (c : ctl) v := mk_ctl (cfg c) (cam_pos c) (target c)
  (currentState c) (listening c) (sph c) (sphericalDelta c) (panOffset c) true v
  (rotateStart c) (panStart c) (dollyStart c).
Definition set_rotateStart (c : ctl) v := mk_ctl (cfg c) (cam_pos c) (target c)
  (currentState c) (listening c) (sph c) (sphericalDelta c) (panOffset c)
  (zoomChanged c) (scale c) v (panStart c) (dollyStart c).
Definition set_panStart (c : ctl) v := mk_ctl (cfg c) (cam_pos c) (target c)
  (currentState c) (listening c) (sph c) (sphericalDelta c) (panOffset c)
  (zoomChanged c) (scale c) (rotateStart c) v (dollyStart c).
Definition set_dollyStart (c : ctl) v := mk_ctl (cfg c) (cam_pos c) (target c)
  (currentState c) (listening c) (sph c) (sphericalDelta c) (panOffset c)
  (zoomChanged c) (scale c) (rotateStart c) (panStart c) v.

(** [getZoomScale()] is [Math.pow(0.95, 1)], that is 0.95. *)
Definition getZoomScale : jsnum := Fin 0.95.

(** [((2 * Math.PI) / 60 / 60) * this.autoRotateSpeed] *)
Definition getAutoRotationAngle (c : ctl) : jsnum :=
  jmul (jdiv (jdiv (jmul (Fin 2) (Fin PI)) (Fin 60)) (Fin 60)) (autoRotateSpeed (cfg c)).

(** [rotateLeft(angle)]: [sphericalDelta.theta -= angle] *)
Definition rotateLeft (angle : jsnum) (c : ctl) : ctl :=
  let sd := sphericalDelta c in
  set_sphericalDelta c (Sph (sph_radius sd) (sph_phi sd) (jsub (sph_theta sd) angle)).

(** [rotateUp(angle)]: [sphericalDelta.phi -= angle] *)
Definition rotateUp (angle : jsnum) (c : ctl) : ctl :=
  let sd := sphericalDelta c in
  set_sphericalDelta c (Sph (sph_radius sd) (jsub (sph_phi sd) angle) (sph_theta sd)).

Definition dollyIn (dollyScale : jsnum) (c : ctl) : ctl :=
  set_scale_zoom c (jdiv (scale c) dollyScale).

Definition dollyOut (dollyScale : jsnum) (c : ctl) : ctl :=
  set_scale_zoom c (jmul (scale c) dollyScale).

(** [pan(deltaX, deltaY)] *)
Definition pan (deltaX deltaY : jsnum) (c : ctl) : ctl :=
  let h := clientHeight (cfg c) in
  let targetDistance := vdistanceTo (cam_pos c) (target c) in
  let panDistance :=
    jmul (jmul (Fin 2) targetDistance)
         (jtan (jdiv (jmul (jdiv (cam_fov (cfg c)) (Fin 2)) (Fin PI)) (Fin 180))) in
  let offset1 := vcross cam_up (vnormalize (vsub (cam_pos c) (target c))) in
  let offset1 := vscale offset1 (jdiv (jmul (jneg deltaX) panDistance) h) in
  let po := vadd (panOffset c) offset1 in
  let offset2 := vscale (vnormalize cam_up) (jdiv (jmul deltaY panDistance) h) in
  set_panOffset c (vadd po offset2).

(** The pair of [rotateLeft]/[rotateUp] calls shared by the mouse and
    one-finger touch handlers, for a [rotateDelta] already scaled. *)
Definition rotate_by (rotateDelta : vec2) (c : ctl) : ctl :=
  let h := clientHeight (cfg c) in
  let c1 := rotateLeft (jdiv (jmul (jmul (Fin 2) (Fin PI)) (v2x rotateDelta)) h) c in
  rotateUp (jdiv (jmul (jmul (Fin 2) (Fin PI)) (v2y rotateDelta)) h) c1.

Definition eps_phi : R := 0.000001.

(** [update()] *)
Definition update (c : ctl) : ctl :=
  let cf := cfg c in
  let quat := quat_identity in
  let quatInverse := quat_identity in
  let offset := applyQuaternion (vsub (cam_pos c) (target c)) quat in
  let s0 := sph_of_vec offset in
  let c1 := if (autoRotate cf && cstate_eqb (currentState c) NONE)%bool
            then rotateLeft (getAutoRotationAngle c) c else c in
  let sd := sphericalDelta c1 in
  let theta := jadd (sph_theta s0) (sph_theta sd) in
  let phi := jadd (sph_phi s0) (sph_phi sd) in
  let phi := jmax (Fin eps_phi) (jmin (jsub (Fin PI) (Fin eps_phi)) phi) in
  let radius := jmul (sph_radius s0) (scale c1) in
  let radius := jmax (minDistance cf) (jmin (maxDistance cf) radius) in
  let s1 := Sph radius phi theta in
  let tgt := vadd (target c1) (panOffset c1) in
  let offset' := applyQuaternion (vec_of_sph s1) quatInverse in
  let pos := vadd tgt offset' in
  let k := jsub (Fin 1) (dampingFactor cf) in
  let sd' := if enableDamping cf
             then Sph (sph_radius sd) (jmul (sph_phi sd) k) (jmul (sph_theta sd) k)
             else Sph (Fin 0) (Fin 0) (Fin 0) in
  let po' := if enableDamping cf then vscale (panOffset c1) k else vzero in
  mk_ctl cf pos tgt (currentState c1) (listening c1) s1 sd' po' (zoomChanged c1)
    (Fin 1) (rotateStart c1) (panStart c1) (dollyStart c1).

(** [onMouseDown(event)] *)
Definition onMouseDown (button : nat) (x y : R) (c : ctl) : ctl :=
  if negb (enabled (cfg c)) then c else
  let c1 := match button with
            | 0%nat => set_rotateStart (set_currentState c ROTATE) (vec2_of x y)
            | 1%nat => set_dollyStart (set_currentState c DOLLY) (vec2_of x y)
            | 2%nat => set_panStart (set_currentState c PAN) (vec2_of x y)
            | _ => c
            end in
  if cstate_eqb (currentState c1) NONE then c1 else set_listening c1 true.

(** The [switch] of [onMouseMove(event)], before its closing [update()]. *)
Definition mouseMove_switch (x y : R) (c : ctl) : ctl :=
  match currentState c with
  | ROTATE =>
      let rotateEnd := vec2_of x y in
      let rotateDelta := vec2_sub_scale rotateEnd (rotateStart c) (Fin 0.01) in
      set_rotateStart (rotate_by rotateDelta c) rotateEnd
  | DOLLY =>
      let dollyEnd := vec2_of x y in
      let dy := jsub (v2y dollyEnd) (v2y (dollyStart c)) in
      let c1 := if jltb (Fin 0) dy then dollyIn getZoomScale c
                else if jltb dy (Fin 0) then dollyOut getZoomScale c else c in
      set_dollyStart c1 dollyEnd
  | PAN =>
      let panEnd := vec2_of x y in
      let panDelta := vec2_sub_scale panEnd (panStart c) (Fin 0.01) in
      set_panStart (pan (v2x panDelta) (v2y panDelta) c) panEnd
  | NONE => c
  end.

(** Handlers return the new state and whether they ended with [update()]. *)
Definition onMouseMove (x y : R) (c : ctl) : ctl * bool :=
  if negb (enabled (cfg c)) then (c, false)
  else (update (mouseMove_switch x y c), true).

Definition onMouseUp (c : ctl) : ctl :=
  if negb (enabled (cfg c)) then c
  else set_currentState (set_listening c false) NONE.

Definition onMouseWheel (deltaY : R) (c : ctl) : ctl * bool :=
  if negb (enabled (cfg c)) then (c, false) else
  let c1 := if Rlt_dec deltaY 0 then dollyOut getZoomScale c
            else if Rlt_dec 0 deltaY then dollyIn getZoomScale c else c in
  (update c1, true).

(** A touch point: [(pageX, pageY)]. *)
Definition touch_distance (t0 t1 : R * R) : jsnum :=
  let dx := jsub (Fin (fst t0)) (Fin (fst t1)) in
  let dy := jsub (Fin (snd t0)) (Fin (snd t1)) in
  jsqrt (jadd (jmul dx dx) (jmul dy dy)).

Definition onTouchStart (touches : list (R * R)) (c : ctl) : ctl :=
  if negb (enabled (cfg c)) then c else
  match touches with
  | [t0] => set_rotateStart (set_currentState c ROTATE) (vec2_of (fst t0) (snd t0))
  | [t0; t1] =>
      set_dollyStart (set_currentState c DOLLY) (V2 (Fin 0) (touch_distance t0 t1))
  | _ => c
  end.

(** The two-finger branch of [onTouchMove]. *)
Definition touch_dolly (t0 t1 : R * R) (c : ctl) : ctl :=
  let distance := touch_distance t0 t1 in
  let dollyEnd := V2 (Fin 0) distance in
  let dollyDelta := V2 (Fin 0) (jpow_tenth (jdiv (v2y dollyEnd) (v2y (dollyStart c)))) in
  set_dollyStart (dollyIn (v2y dollyDelta) c) dollyEnd.

Definition onTouchMove (touches : list (R * R)) (c : ctl) : ctl :=
  if negb (enabled (cfg c)) then c else
  match touches with
  | [t0] =>
      let rotateEnd := vec2_of (fst t0) (snd t0) in
      let rotateDelta := vec2_sub_scale rotateEnd (rotateStart c) (Fin 0.01) in
      set_rotateStart (rotate_by rotateDelta c) rotateEnd
  | [t0; t1] => touch_dolly t0 t1 c
  | _ => c
  end.

Definition onTouchEnd (c : ctl) : ctl :=
  if negb (enabled (cfg c)) then c else set_currentState c NONE.

(** Inputs reaching the controller: DOM events, and the animation frame,
    on which the page calls [controls.update()]. *)
Inductive input :=
| MouseDown (button : nat) (x y : R)
| MouseMove (x y : R)
| MouseUp
| Wheel (deltaY : R)
| TouchStart (touches : list (R * R))
| TouchMove (touches : list (R * R))
| TouchEnd
| AnimationFrame.

(** [mousemove] and [mouseup] are listened to on the document only while
    [listening] holds. *)
Definition handle (c : ctl) (i : input) : ctl * bool :=
  match i with
  | MouseDown b x y => (onMouseDown b x y c, false)
  | MouseMove x y => if listening c then onMouseMove x y c else (c, false)
  | MouseUp => (if listening c then onMouseUp c else c, false)
  | Wheel d => onMouseWheel d c
  | TouchStart ts => (onTouchStart ts c, false)
  | TouchMove ts => (onTouchMove ts c, false)
  | TouchEnd => (onTouchEnd c, false)
  | AnimationFrame => (update c, true)
  end.

(** The states right after each [update()] call along an input sequence. *)
Fixpoint updates_of (c : ctl) (l : list input) : list ctl :=
  match l with
  | [] => []
  | i :: l' =>
      let (c', upd) := handle c i in
      (if upd then [c'] else []) ++ updates_of c' l'
  end.

(** The controller as [new OrbitControls(camera, renderer.domElement)]
    builds it for the page's camera at (0, 50, 120) (fov 75) and a canvas of
    height [h]: the constructor already calls [update()] with the default
    settings, then [setupControls] assigns the page's settings. *)
Definition default_cfg (h : R) : controls_cfg :=
  {| enabled := true; enableDamping := false; dampingFactor := Fin 0.05;
     minDistance := Fin 0; maxDistance := PosInf; autoRotate := false;
     autoRotateSpeed := Fin 2; cam_fov := Fin 75; clientHeight := Fin h |}.

Definition page_cfg (h : R) : controls_cfg :=
  {| enabled := true; enableDamping := true; dampingFactor := Fin 0.05;
     minDistance := Fin 10; maxDistance := Fin 400; autoRotate := false;
     autoRotateSpeed := Fin 0.5; cam_fov := Fin 75; clientHeight := Fin h |}.

Definition constructed_ctl (h : R) : ctl :=
  mk_ctl (default_cfg h) (vec3_of 0 50 120) vzero NONE false
    (Sph (Fin 1) (Fin 0) (Fin 0)) (Sph (Fin 1) (Fin 0) (Fin 0)) vzero false (Fin 1)
    (vec2_of 0 0) (vec2_of 0 0) (vec2_of 0 0).

Definition page_ctl (h : R) : ctl := set_cfg (update (constructed_ctl h)) (page_cfg h).

(* ------------------------------------------------------------------ *)
(** ** SolarSystem: bodies, motion, pause, focus transition *)

(** An entry of [planetData] (colour and text are not read by the motion). *)
Record planet_data := {
  pd_name : string;
  pd_radius : R;
  pd_distance : R;
  pd_orbitalSpeed : R;
  pd_rotationSpeed : R
}.

(** An entry of [this.planets], with the rotations of its mesh and of its
    orbit group; the mesh sits at [(data.distance, 0, 0)] in the group. *)
Record planet := {
  p_data : planet_data;
  p_angle : R;
  p_individualSpeed : R;
  p_mesh_rot_y : R;
  p_orbit_rot_y : R
}.

(** An entry of [this.moons], with the moon mesh's rotation and position in
    its planet's frame (its y stays 0). *)
Record moon := {
  m_angle : R;
  m_distance : R;
  m_speed : R;
  m_rot_y : R;
  m_pos_x : R;
  m_pos_z : R
}.

(** A running [animateCamera] closure of [focusOnObject]. *)
Record focus_anim := {
  f_start : vec3;
  f_end : vec3;
  f_targetPosition : vec3;
  f_startTime : R
}.

(** The state of a [SolarSystem] read or written by the motion, the pause,
    the sliders and the focus transitions.  [this.planets] and [this.moons]
    are association lists in the insertion order [Object.values] follows;
    [focuses] are the [animateCamera] callbacks still scheduled. *)
Record sys := {
  sun_rot_y : R;
  planets : list (string * planet);
  moons : list (string * moon);
  globalSpeedMultiplier : R;
  isPaused : bool;
  controls : ctl;
  starField_rot_y : R;
  focuses : list focus_anim
}.

Definition mk_sys a b c d e f g h : sys :=
  {| sun_rot_y := a; planets := b; moons := c; globalSpeedMultiplier := d;
     isPaused := e; controls := f; starField_rot_y := g; focuses := h |}.

Definition set_controls (s : sys) c := mk_sys (sun_rot_y s) (planets s) (moons s)
  (globalSpeedMultiplier s) (isPaused s) c (starField_rot_y s) (focuses s).
Definition set_controls_focuses (s : sys) c fs := mk_sys (sun_rot_y s) (planets s)
  (moons s) (globalSpeedMultiplier s) (isPaused s) c (starField_rot_y s) fs.
Definition set_planets (s : sys) ps := mk_sys (sun_rot_y s) ps (moons s)
  (globalSpeedMultiplier s) (isPaused s) (controls s) (starField_rot_y s) (focuses s).
Definition set_globalSpeedMultiplier (s : sys) g := mk_sys (sun_rot_y s) (planets s)
  (moons s) g (isPaused s) (controls s) (starField_rot_y s) (focuses s).

Fixpoint assoc {A : Type} (k : string) (l : list (string * A)) : option A :=
  match l with
  | [] => None
  | (k', a) :: l' => if String.eqb k k' then Some a else assoc k l'
  end.

(** [createPlanet]: the orbit group starts unrotated, the angle random. *)
Definition createPlanet (data : planet_data) (angle : R) : planet :=
  {| p_data := data; p_angle := angle; p_individualSpeed := 1;
     p_mesh_rot_y := 0; p_orbit_rot_y := 0 |}.

(** [addEarthMoon(planet, planetRadius)] *)
Definition earth_moon (planetRadius : R) : moon :=
  {| m_angle := 0; m_distance := planetRadius * 3; m_speed := 0.05;
     m_rot_y := 0; m_pos_x := planetRadius * 3; m_pos_z := 0 |}.

(** A point [(x, y, z)] carried by a group whose [rotation.y] is [a]: the
    rotation matrix three.js builds for the Euler angles (0, a, 0), whose
    rows are (cos a, 0, sin a), (0, 1, 0), (-sin a, 0, cos a). *)
Definition rotY (a x y z : R) : R * R * R :=
  (cos a * x + sin a * z, y, - sin a * x + cos a * z).

(** [planet.mesh.getWorldPosition(new THREE.Vector3())]: the mesh at
    [(distance, 0, 0)] inside its orbit group, the group at the origin of
    the scene. *)
Definition planet_world_position (p : planet) : vec3 :=
  let '(x, y, z) := rotY (p_orbit_rot_y p) (pd_distance (p_data p)) 0 0 in
  vec3_of x y z.

(** One planet in [updatePlanets]. *)
Definition updatePlanet (g : R) (p : planet) : planet :=
  let speedMultiplier := g * p_individualSpeed p in
  let angle := p_angle p + pd_orbitalSpeed (p_data p) * speedMultiplier in
  {| p_data := p_data p; p_angle := angle; p_individualSpeed := p_individualSpeed p;
     p_mesh_rot_y := p_mesh_rot_y p + pd_rotationSpeed (p_data p) * speedMultiplier;
     p_orbit_rot_y := angle |}.

(** One moon in [updatePlanets]. *)
Definition updateMoon (g : R) (m : moon) : moon :=
  let angle := m_angle m + m_speed m * g in
  {| m_angle := angle; m_distance := m_distance m; m_speed := m_speed m;
     m_rot_y := m_rot_y m + 0.02 * g;
     m_pos_x := cos angle * m_distance m; m_pos_z := sin angle * m_distance m |}.

(** [updatePlanets(deltaTime)]; [deltaTime] is not read. *)
Definition updatePlanets (s : sys) : sys :=
  let g := globalSpeedMultiplier s in
  mk_sys (sun_rot_y s + 0.005 * g)
    (map (fun kp => (fst kp, updatePlanet g (snd kp))) (planets s))
    (map (fun km => (fst km, updateMoon g (snd km))) (moons s))
    g (isPaused s) (controls s) (starField_rot_y s) (focuses s).

Definition updateStarField (s : sys) : sys :=
  mk_sys (sun_rot_y s) (planets s) (moons s) (globalSpeedMultiplier s) (isPaused s)
    (controls s) (starField_rot_y s + 0.0001) (focuses s).

(** The body of [animate()] (rendering and the clock, whose delta is not
    used, apart). *)
Definition animate (s : sys) : sys :=
  let s1 := if isPaused s then s else updateStarField (updatePlanets s) in
  set_controls s1 (update (controls s1)).

Definition togglePause (s : sys) : sys :=
  mk_sys (sun_rot_y s) (planets s) (moons s) (globalSpeedMultiplier s)
    (negb (isPaused s)) (controls s) (starField_rot_y s) (focuses s).

Definition focus_duration : R := 2000.

(** [Math.min(elapsed / duration, 1)] *)
Definition focus_progress (now : R) (f : focus_anim) : R :=
  Rmin ((now - f_startTime f) / focus_duration) 1.

(** [1 - Math.pow(1 - progress, 3)] *)
Definition focus_eased (progress : R) : R := 1 - (1 - progress) ^ 3.

(** One call of [animateCamera] at time [now]; the boolean says whether it
    schedules itself again. *)
Definition focus_step (now : R) (f : focus_anim) (c : ctl) : ctl * bool :=
  let progress := focus_progress now f in
  let eased := focus_eased progress in
  let c1 := set_cam_pos c (vlerpVectors (f_start f) (f_end f) (Fin eased)) in
  let c2 := set_target c1 (vlerp (target c1) (f_targetPosition f) (Fin eased)) in
  (update c2, if Rlt_dec progress 1 then true else false).

(** [focusOnObject(objectName)] at time [now] (the value of [Date.now()]). *)
Definition focusOnObject (objectName : string) (now : R) (s : sys) : sys :=
  let dest :=
    if String.eqb objectName "sun" then Some (vzero, 15)
    else match assoc objectName (planets s) with
         | Some p => Some (planet_world_position p, pd_radius (p_data p) * 8)
         | None => None
         end in
  match dest with
  | None => s
  | Some (targetPosition, distance) =>
      let startPosition := cam_pos (controls s) in
      let endPosition :=
        vadd targetPosition (V3 (Fin distance) (Fin (distance * 0.5)) (Fin distance)) in
      let f := {| f_start := startPosition; f_end := endPosition;
                  f_targetPosition := targetPosition; f_startTime := now |} in
      let (c', again) := focus_step now f (controls s) in
      set_controls_focuses s c' (focuses s ++ (if again then [f] else []))
  end.

(** The scheduled [animateCamera] callbacks of one frame, in order. *)
Fixpoint run_focuses (now : R) (fs : list focus_anim) (c : ctl)
  : ctl * list focus_anim :=
  match fs with
  | [] => (c, [])
  | f :: fs' =>
      let (c1, again) := focus_step now f c in
      let (c2, rest) := run_focuses now fs' c1 in
      (c2, if again then f :: rest else rest)
  end.

(** One displayed frame at time [now]: [animate] was scheduled before any
    [animateCamera] still pending, so it runs first. *)
Definition frame (now : R) (s : sys) : sys :=
  let s1 := animate s in
  let (c, fs) := run_focuses now (focuses s1) (controls s1) in
  set_controls_focuses s1 c fs.

(* ------------------------------------------------------------------ *)
(** ** Speed sliders *)

(** An [<input type="range">]: the browser keeps its value in range by the
    HTML value sanitization algorithm; the handlers then store
    [parseFloat(e.target.value)], which reads back that number. *)
Record range_input := { ri_min : R; ri_max : R; ri_step : R }.

(** The default value of a range input (for a value that is no number). *)
Definition range_default (r : range_input) : R :=
  if Rlt_dec (ri_max r) (ri_min r) then ri_min r
  else ri_min r + (ri_max r - ri_min r) / 2.

(** Value sanitization of a range input: underflow to the minimum,
    overflow to the maximum, then a step mismatch is rounded to the nearest
    value [min + k * step], the greater one on a tie, and the one below when
    that would pass the maximum.  [None] is a value that is no number. *)
Definition range_sanitize (r : range_input) (v : option R) : R :=
  let x := match v with Some x => x | None => range_default r end in
  let c := Rmax (ri_min r) (Rmin (ri_max r) x) in
  let k := up ((c - ri_min r) / ri_step r - / 2) in
  let y := ri_min r + ri_step r * IZR k in
  if Rlt_dec (ri_max r) y then y - ri_step r else y.

(** The per-planet slider of [setupUI]: [min="0" max="3" step="0.1"]. *)
Definition planet_speed_input : range_input :=
  {| ri_min := 0; ri_max := 3; ri_step := 0.1 |}.

(** Modelled from the spec: the [global-speed] range input is declared in
    the page's HTML, which is not among the sources; the spec (and the
    README) give its domain as 0 to 5.  Its step is not stated, so it is a
    parameter. *)
Definition global_speed_input (step : R) : range_input :=
  {| ri_min := 0; ri_max := 5; ri_step := step |}.

(** The [input] listener of the [global-speed] slider. *)
Definition onGlobalSpeedInput (step : R) (v : option R) (s : sys) : sys :=
  set_globalSpeedMultiplier s (range_sanitize (global_speed_input step) v).

Definition set_individualSpeed (p : planet) (speed : R) : planet :=
  {| p_data := p_data p; p_angle := p_angle p; p_individualSpeed := speed;
     p_mesh_rot_y := p_mesh_rot_y p; p_orbit_rot_y := p_orbit_rot_y p |}.

(** The [input] listener of the [speed-<key>] slider of planet [key]. *)
Definition onPlanetSpeedInput (key : string) (v : option R) (s : sys) : sys :=
  let speed := range_sanitize planet_speed_input v in
  set_planets s
    (map (fun kp => if String.eqb (fst kp) key
                    then (fst kp, set_individualSpeed (snd kp) speed) else kp)
         (planets s)).

(* ------------------------------------------------------------------ *)
(** ** Scenarios *)

(** A Sun and one body at orbital radius 24 with orbital rate 0.01 and
    starting angle 0, global multiplier 2, individual multiplier 1. *)
Definition scenario_body : planet_data :=
  {| pd_name := "Earth"; pd_radius := 2; pd_distance := 24;
     pd_orbitalSpeed := 0.01; pd_rotationSpeed := 0.02 |}.

Definition scenario_sys (c : ctl) : sys :=
  mk_sys 0 [("earth"%string, createPlanet scenario_body 0)] [] 2 false c 0 [].

(** A focus transition started at time 0 from the origin, toward a body
    at (8, 0, 0). *)
Definition focus_demo : focus_anim :=
  {| f_start := vzero; f_end := vec3_of 8 4 8; f_targetPosition := vec3_of 8 0 0;
     f_startTime := 0 |}.

(* ------------------------------------------------------------------ *)
(** ** Finite controller states *)

Definition v2fin (v : vec2) : Prop := jfin (v2x v) /\ jfin (v2y v).

(** Settings under which [update()] and the handlers keep every number
    they write finite: a canvas of positive height, a finite
    [minDistance] not above [maxDistance] (which may stay [Infinity]),
    and finite factors. *)
Definition cfg_ok (cf : controls_cfg) : Prop :=
  (exists h, clientHeight cf = Fin h /\ 0 < h) /\
  (exists m, minDistance cf = Fin m /\
     (maxDistance cf = PosInf \/ exists M, maxDistance cf = Fin M /\ m <= M)) /\
  jfin (dampingFactor cf) /\ jfin (autoRotateSpeed cf) /\ jfin (cam_fov cf).

(** The numbers of a controller that [update()] and the handlers read. *)
Definition ctl_fin (c : ctl) : Prop :=
  vfin (cam_pos c) /\ vfin (target c) /\ jfin (sph_phi (sphericalDelta c)) /\
  jfin (sph_theta (sphericalDelta c)) /\ vfin (panOffset c) /\ jfin (scale c) /\
  v2fin (rotateStart c) /\ v2fin (panStart c).

(** The clamp of [spherical] that [update()] performs, read on the result:
    [phi] in [[1e-6, PI - 1e-6]] and [radius] in
    [[minDistance, maxDistance]], NaN satisfying neither. *)
Definition clamped (cf : controls_cfg) (c : ctl) : Prop :=
  jle (Fin eps_phi) (sph_phi (sph c)) /\ jle (sph_phi (sph c)) (Fin (PI - eps_phi)) /\
  jle (minDistance cf) (sph_radius (sph c)) /\ jle (sph_radius (sph c)) (maxDistance cf).



(** A session on the page's controller: a pinch from 5 to 10 pixels, a
    frame, then a left-button drag. *)
Definition pinch_demo_inputs : list input :=
  [TouchStart [(0, 0); (3, 4)]; TouchMove [(0, 0); (6, 8)]; AnimationFrame;
   MouseDown 0 400 300; MouseMove 420 310; MouseUp; AnimationFrame].

(* ------------------------------------------------------------------ *)
(** ** Building the system ([createSolarSystem], [createPlanet]) *)

(** [obj[key] = value] on an object whose keys are not array indices: an
    existing key keeps its place, a new key is appended. *)
Fixpoint assoc_put {A : Type} (k : string) (a : A) (l : list (string * A))
  : list (string * A) :=
  match l with
  | [] => [(k, a)]
  | (k', a') :: l' => if String.eqb k k' then (k, a) :: l' else (k', a') :: assoc_put k a l'
  end.

(** [createPlanet(key, data)] on the bodies, [Math.random()] given as [rnd];
    [addEarthMoon] runs for the key "earth" ([this.moons] starts empty
    here, where the code leaves it undefined until then).  Meshes,
    materials, Saturn's rings and the orbit path are graphics only. *)
Definition createPlanet_in (key : string) (data : planet_data) (rnd : R) (s : sys) : sys :=
  let ms := if String.eqb key "earth"
            then assoc_put "earth" (earth_moon (pd_radius data)) (moons s) else moons s in
  mk_sys (sun_rot_y s) (assoc_put key (createPlanet data (rnd * PI * 2)) (planets s)) ms
    (globalSpeedMultiplier s) (isPaused s) (controls s) (starField_rot_y s) (focuses s).

(** The loop of [createSolarSystem] over [Object.entries(this.planetData)];
    the [i]-th call of [Math.random()] returns [rnd i]. *)
Fixpoint createPlanets (entries : list (string * planet_data)) (rnd : nat -> R) (i : nat)
  (s : sys) : sys :=
  match entries with
  | [] => s
  | (key, data) :: es => createPlanets es rnd (S i) (createPlanet_in key data (rnd i) s)
  end.

Definition createSolarSystem (entries : list (string * planet_data)) (rnd : nat -> R)
  (s : sys) : sys :=
  createPlanets entries rnd 0 s.

(** The bodies as the constructor leaves them: no planet, no moon, global
    speed 1, running. *)
Definition initial_sys (c : ctl) : sys := mk_sys 0 [] [] 1 false c 0 [].

(** [this.planetData] (colours and texts omitted). *)
Definition planetData : list (string * planet_data) :=
  [("mercury"%string, {| pd_name := "Mercury"; pd_radius := 1.2; pd_distance := 12;
                        pd_orbitalSpeed := 0.02; pd_rotationSpeed := 0.005 |});
   ("venus"%string, {| pd_name := "Venus"; pd_radius := 1.8; pd_distance := 18;
                      pd_orbitalSpeed := 0.015; pd_rotationSpeed := 0.002 |});
   ("earth"%string, {| pd_name := "Earth"; pd_radius := 2.0; pd_distance := 24;
                      pd_orbitalSpeed := 0.01; pd_rotationSpeed := 0.02 |});
   ("mars"%string, {| pd_name := "Mars"; pd_radius := 1.5; pd_distance := 30;
                     pd_orbitalSpeed := 0.008; pd_rotationSpeed := 0.018 |});
   ("jupiter"%string, {| pd_name := "Jupiter"; pd_radius := 5.5; pd_distance := 40;
                        pd_orbitalSpeed := 0.005; pd_rotationSpeed := 0.04 |});
   ("saturn"%string, {| pd_name := "Saturn"; pd_radius := 4.8; pd_distance := 52;
                       pd_orbitalSpeed := 0.003; pd_rotationSpeed := 0.035 |});
   ("uranus"%string, {| pd_name := "Uranus"; pd_radius := 3.2; pd_distance := 64;
                       pd_orbitalSpeed := 0.002; pd_rotationSpeed := 0.025 |});
   ("neptune"%string, {| pd_name := "Neptune"; pd_radius := 3.0; pd_distance := 76;
                        pd_orbitalSpeed := 0.001; pd_rotationSpeed := 0.022 |})].

(* ------------------------------------------------------------------ *)
(** ** Pointer position and theme *)

(** [getBoundingClientRect()] of the canvas. *)
Record dom_rect := { rect_left : R; rect_top : R; rect_width : R; rect_height : R }.

(** [updateMousePosition(event)]: [this.mouse] in normalized device
    coordinates. *)
Definition updateMousePosition (rc : dom_rect) (clientX clientY : R) : vec2 :=
  V2 (jsub (jmul (jdiv (jsub (Fin clientX) (Fin (rect_left rc))) (Fin (rect_width rc)))
                 (Fin 2)) (Fin 1))
     (jadd (jmul (jneg (jdiv (jsub (Fin clientY) (Fin (rect_top rc)))
                             (Fin (rect_height rc)))) (Fin 2)) (Fin 1)).

(** The theme icon's two texts. *)
Inductive theme_icon := MoonIcon | SunIcon.

(** [document.body.dataset.theme] ([None] when the attribute is absent) and
    the icon text. *)
Record theme_state := { body_theme : option string; icon : option theme_icon }.

(** [toggleTheme()] *)
Definition toggleTheme (t : theme_state) : theme_state :=
  match body_theme t with
  | Some th =>
      if String.eqb th "light" then {| body_theme := Some "dark"%string; icon := Some MoonIcon |}
      else {| body_theme := Some "light"%string; icon := Some SunIcon |}
  | None => {| body_theme := Some "light"%string; icon := Some SunIcon |}
  end.

(* ------------------------------------------------------------------ *)
(** ** Fallback controls ([setupBasicControls], [updateCameraPosition]) *)









(** ** Further scenarios *)

(** The page's bodies built by [createSolarSystem], every [Math.random()]
    returning 0. *)
Definition solar_demo : sys :=
  createSolarSystem planetData (fun _ => 0) (initial_sys (constructed_ctl 800)).

(** The constructed controller with the page's settings (damping on) and
    a pending rotation of -0.5 rad about the vertical axis. *)
Definition damped_demo : ctl :=
  set_cfg (rotateLeft (Fin 0.5) (constructed_ctl 800)) (page_cfg 800).

(** The page's settings with [enabled = false]. *)
Definition disabled_cfg : controls_cfg :=
  {| enabled := false; enableDamping := true; dampingFactor := Fin 0.05;
     minDistance := Fin 10; maxDistance := Fin 400; autoRotate := false;
     autoRotateSpeed := Fin 0.5; cam_fov := Fin 75; clientHeight := Fin 800 |}.

(* ================================================================== *)
(** * Properties *)

(** ** Arithmetic of [jsnum] on finite values *)

(** The operations that decide on the sign or range of a real stay folded
    under [cbn]; they are rewritten with the lemmas below. *)
Arguments jdiv : simpl never.
Arguments jsqrt : simpl never.
Arguments jmin : simpl never.
Arguments jmax : simpl never.
Arguments jacos : simpl never.
Arguments jatan2 : simpl never.
Arguments jpow_tenth : simpl never.
Arguments jtruthy : simpl never.
Arguments jeqb : simpl never.
Arguments jltb : simpl never.
Arguments inf_times : simpl never.

Lemma rsign_gt (r : R) : 0 < r -> rsign r = Gt.
Proof.
  intro H; unfold rsign; destruct (total_order_T r 0) as [[H1|H1]|H1];
    [lra | lra | reflexivity].
Qed.

Lemma rsign_lt (r : R) : r < 0 -> rsign r = Lt.
Proof.
  intro H; unfold rsign; destruct (total_order_T r 0) as [[H1|H1]|H1];
    [reflexivity | lra | lra].
Qed.

Lemma rsign_eq (r : R) : r = 0 -> rsign r = Eq.
Proof.
  intro H; unfold rsign; destruct (total_order_T r 0) as [[H1|H1]|H1];
    [lra | reflexivity | lra].
Qed.

Lemma jdiv_fin (x y : R) : y <> 0 -> jdiv (Fin x) (Fin y) = Fin (x / y).
Proof.
  intro H; unfold jdiv; destruct (Rlt_or_le y 0) as [H1|H1].
  - rewrite rsign_lt by exact H1; reflexivity.
  - rewrite rsign_gt by lra; reflexivity.
Qed.

Lemma jsqrt_fin (r : R) : 0 <= r -> jsqrt (Fin r) = Fin (sqrt r).
Proof.
  intro H; unfold jsqrt; destruct (Req_dec_T r 0) as [E|E].
  - rewrite rsign_eq by exact E; reflexivity.
  - rewrite rsign_gt by lra; reflexivity.
Qed.

Lemma jmul_NaN_r (a : jsnum) : jmul a NaN = NaN.
Proof. destruct a; reflexivity. Qed.

Lemma jmax_NaN_r (a : jsnum) : jmax a NaN = NaN.
Proof. destruct a; reflexivity. Qed.

Lemma jmin_NaN_r (a : jsnum) : jmin a NaN = NaN.
Proof. destruct a; reflexivity. Qed.

Lemma PI_gt_3 : 3 < PI.
Proof. pose proof PI2_3_2; lra. Qed.

(** ** Zoom one-shot *)

(** Claim C8: after every [update()], [scale] is 1, and the radius it
    computed used the incoming [scale] once: [radius * scale], clamped. *)
Theorem update_scale_one_shot (c : ctl) :
  scale (update c) = Fin 1 /\
  sph_radius (sph (update c)) =
    jmax (minDistance (cfg c))
      (jmin (maxDistance (cfg c))
         (jmul (sph_radius (sph_of_vec
                  (applyQuaternion (vsub (cam_pos c) (target c)) quat_identity)))
               (scale c))).
Proof.
  unfold update.
  destruct (autoRotate (cfg c) && cstate_eqb (currentState c) NONE)%bool;
    split; reflexivity.
Qed.

(** ** Pause *)

Lemma animate_paused (s : sys) :
  isPaused s = true -> animate s = set_controls s (update (controls s)).
Proof. intro H; unfold animate; rewrite H; reflexivity. Qed.

(** Claim C9: [n] paused frames leave the angles of every planet, of the
    moons and of the Sun unchanged, while the controller's [update()] runs
    once per frame. *)
Theorem paused_frames_freeze_orbits (n : nat) (s : sys) :
  isPaused s = true ->
  let s' := Nat.iter n animate s in
  planets s' = planets s /\ moons s' = moons s /\ sun_rot_y s' = sun_rot_y s /\
  isPaused s' = true /\ controls s' = Nat.iter n update (controls s).
Proof.
  intros Hp; induction n as [|n IH]; cbv zeta in *.
  - repeat split; assumption || reflexivity.
  - rewrite !Nat.iter_succ.
    destruct IH as (Hpl & Hm & Hs & Hq & Hc).
    rewrite (animate_paused _ Hq); cbn.
    repeat split; try assumption. rewrite Hc; reflexivity.
Qed.

Lemma paused_frames_freeze_orbits_witness :
  isPaused (mk_sys 0 [] [] 1 true (page_ctl 800) 0 []) = true /\
  moons (Nat.iter 3 animate (mk_sys 0 [] [] 1 true (page_ctl 800) 0 []))
    = moons (mk_sys 0 [] [] 1 true (page_ctl 800) 0 []).
Proof.
  split; [reflexivity|].
  apply (paused_frames_freeze_orbits 3 (mk_sys 0 [] [] 1 true (page_ctl 800) 0 []) eq_refl).
Defined.

(** ** Moon motion *)

Lemma moons_updatePlanets (s : sys) :
  moons (updatePlanets s) =
    map (fun km => (fst km, updateMoon (globalSpeedMultiplier s) (snd km))) (moons s).
Proof. reflexivity. Qed.

Lemma animate_unpaused (s : sys) :
  isPaused s = false ->
  animate s = set_controls (updateStarField (updatePlanets s))
                (update (controls (updatePlanets s))).
Proof. intro H; unfold animate; rewrite H; reflexivity. Qed.

(** Claim C10: on an unpaused frame every moon's angle grows by its speed
    times the global multiplier and its rotation by 0.02 times the global
    multiplier; the planets (and so their individual multipliers) do not
    enter into it. *)
Theorem moon_motion_global_only (s : sys) (ps : list (string * planet)) :
  isPaused s = false ->
  moons (animate (set_planets s ps)) = moons (animate s) /\
  Forall2 (fun km km' =>
             fst km' = fst km /\
             m_angle (snd km') = m_angle (snd km) + m_speed (snd km) * globalSpeedMultiplier s /\
             m_rot_y (snd km') = m_rot_y (snd km) + 0.02 * globalSpeedMultiplier s)
          (moons s) (moons (animate s)).
Proof.
  intro Hp.
  assert (Hp' : isPaused (set_planets s ps) = false) by exact Hp.
  rewrite (animate_unpaused _ Hp), (animate_unpaused _ Hp'); cbn.
  split; [reflexivity|].
  induction (moons s) as [|[k m] l IH]; cbn; constructor; auto.
Qed.

Lemma moon_motion_global_only_witness :
  isPaused (mk_sys 0 [] [("earth"%string, earth_moon 2)] 1.5 false (page_ctl 800) 0 []) = false /\
  moons (animate (set_planets (mk_sys 0 [] [("earth"%string, earth_moon 2)] 1.5 false
                                 (page_ctl 800) 0 [])
                              [("earth"%string, createPlanet scenario_body 0)]))
  = moons (animate (mk_sys 0 [] [("earth"%string, earth_moon 2)] 1.5 false (page_ctl 800) 0 [])).
Proof.
  split; [reflexivity|].
  apply (moon_motion_global_only
           (mk_sys 0 [] [("earth"%string, earth_moon 2)] 1.5 false (page_ctl 800) 0 [])
           [("earth"%string, createPlanet scenario_body 0)] eq_refl).
Defined.

(** ** One motion step of a body *)

Lemma scenario_planet (c : ctl) :
  planets (updatePlanets (scenario_sys c)) =
    [("earth"%string, updatePlanet 2 (createPlanet scenario_body 0))].
Proof. reflexivity. Qed.

(** Claim C3 (as the code does it): one [updatePlanets] with global
    multiplier 2 and individual multiplier 1 takes the body at radius 24,
    rate 0.01 and angle 0 to angle 0.02, and its position in the scene is
    [(24 cos 0.02, 0, -24 sin 0.02)]: the orbit group turns it about y. *)
Theorem advance_scenario_body (c : ctl) :
  exists p, assoc "earth"%string (planets (updatePlanets (scenario_sys c))) = Some p /\
    p_angle p = 0.02 /\
    planet_world_position p = vec3_of (24 * cos 0.02) 0 (- (24 * sin 0.02)).
Proof.
  rewrite scenario_planet; cbn.
  eexists; split; [reflexivity|].
  cbn. replace (0 + 0.01 * (2 * 1)) with 0.02 by lra.
  split; [reflexivity|].
  unfold planet_world_position, rotY, vec3_of; cbn.
  f_equal; f_equal; ring.
Qed.

Lemma sin_002_lower : 0.02 - 0.02 ^ 3 / 6 <= sin 0.02.
Proof.
  pose proof PI_gt_3 as HPI.
  destruct (sin_bound 0.02 0 ltac:(lra) ltac:(lra)) as [H _].
  unfold sin_approx, sin_term in H; cbn in H. lra.
Qed.

(** Claim C3 as stated fails: the z coordinate of the body after the step
    is [-24 sin 0.02], which is about 0.96 away from [24 sin 0.02]. *)
Lemma advance_scenario_body_z_sign :
  exists p, assoc "earth"%string (planets (updatePlanets (scenario_sys (page_ctl 800)))) = Some p /\
    vz (planet_world_position p) = Fin (- (24 * sin 0.02)) /\
    1e-9 < Rabs (- (24 * sin 0.02) - 24 * sin 0.02).
Proof.
  rewrite scenario_planet; cbn.
  eexists; split; [reflexivity|].
  pose proof sin_002_lower as Hs.
  split.
  - unfold planet_world_position, rotY, vec3_of; cbn.
    replace (0 + 0.01 * (2 * 1)) with 0.02 by lra. f_equal; ring.
  - rewrite Rabs_left by lra. lra.
Qed.

(** ** Speed sliders *)

Lemma up_nonneg (t : R) : 0 <= t -> (0 <= up (t - / 2))%Z.
Proof.
  intro Ht; destruct (archimed (t - / 2)) as [H1 _].
  destruct (Z_lt_le_dec (up (t - / 2)) 0) as [Hn|Hn]; [|exact Hn].
  exfalso. assert (Hle : (up (t - / 2) <= -1)%Z) by lia.
  apply IZR_le in Hle. lra.
Qed.

Lemma range_sanitize_in_range (r : range_input) (v : option R) :
  ri_min r <= ri_max r -> 0 < ri_step r ->
  ri_min r <= range_sanitize r v <= ri_max r.
Proof.
  intros Hmm Hst. unfold range_sanitize.
  set (x := match v with Some x => x | None => range_default r end).
  set (c := Rmax (ri_min r) (Rmin (ri_max r) x)).
  assert (Hc : ri_min r <= c <= ri_max r).
  { unfold c; split; [apply Rmax_l|].
    apply Rmax_lub; [exact Hmm | apply Rmin_l]. }
  set (t := (c - ri_min r) / ri_step r).
  assert (Ht : 0 <= t) by (unfold t; unfold Rdiv; apply Rmult_le_pos; [lra | left; apply Rinv_0_lt_compat; lra]).
  assert (Hct : ri_step r * t = c - ri_min r) by (unfold t; field; lra).
  pose proof (up_nonneg t Ht) as Hk.
  destruct (archimed (t - / 2)) as [_ H2].
  set (k := up (t - / 2)) in *.
  assert (Hk0 : 0 <= IZR k) by (apply IZR_le in Hk; exact Hk).
  assert (Hsk : ri_step r * IZR k <= c - ri_min r + ri_step r / 2).
  { rewrite <- Hct. assert (IZR k <= t + / 2) by lra. nra. }
  destruct (Rlt_dec (ri_max r) (ri_min r + ri_step r * IZR k)) as [Hgt|Hle].
  - assert (Hk1 : (1 <= k)%Z).
    { destruct (Z.eq_dec k 0) as [E|E]; [|lia].
      rewrite E in Hgt. lra. }
    apply IZR_le in Hk1. split; nra.
  - split; [nra | lra].
Qed.

Lemma range_sanitize_below (r : range_input) (x : R) :
  ri_min r <= ri_max r -> 0 < ri_step r -> x < ri_min r ->
  range_sanitize r (Some x) = ri_min r.
Proof.
  intros Hmm Hst Hx. unfold range_sanitize.
  rewrite (Rmax_left (ri_min r) (Rmin (ri_max r) x))
    by (pose proof (Rmin_r (ri_max r) x); lra).
  replace ((ri_min r - ri_min r) / ri_step r - / 2) with (- / 2) by (field; lra).
  rewrite <- (tech_up (- / 2) 0) by lra.
  rewrite Rmult_0_r, Rplus_0_r.
  destruct (Rlt_dec (ri_max r) (ri_min r)); [lra | reflexivity].
Qed.

Lemma range_sanitize_planet_above (x : R) :
  3 < x -> range_sanitize planet_speed_input (Some x) = 3.
Proof.
  intro Hx. unfold range_sanitize; cbn [ri_min ri_max ri_step planet_speed_input].
  rewrite (Rmin_left 3 x) by lra.
  rewrite (Rmax_right 0 3) by lra.
  replace ((3 - 0) / 0.1 - / 2) with (59 / 2) by lra.
  rewrite <- (tech_up (59 / 2) 30) by lra.
  destruct (Rlt_dec 3 (0 + 0.1 * IZR 30)); lra.
Qed.

Lemma assoc_set_speed (key : string) (speed : R) (l : list (string * planet)) (p : planet) :
  assoc key (map (fun kp => if String.eqb (fst kp) key
                            then (fst kp, set_individualSpeed (snd kp) speed) else kp) l)
    = Some p ->
  p_individualSpeed p = speed.
Proof.
  induction l as [|[k q] l IH]; cbn; [discriminate|].
  destruct (String.eqb_spec k key) as [E|E]; cbn.
  - subst k. rewrite String.eqb_refl. intro H; injection H as <-; reflexivity.
  - rewrite (proj2 (String.eqb_neq key k)) by congruence. exact IH.
Qed.

(** Claim C5: every value the speed handlers store is in the slider's
    domain, [0, 5] for the global multiplier and [0, 3] for a planet's; a
    value below the domain is stored as 0, and one above [0, 3] as 3.  The
    clamping is the range inputs' own (the handlers store what the input
    holds); nothing is rejected. *)
Theorem speed_multipliers_clamped (step : R) (key : string) (v : option R) (s : sys) :
  0 < step ->
  (0 <= globalSpeedMultiplier (onGlobalSpeedInput step v s) <= 5 /\
   (forall x, v = Some x -> x < 0 -> globalSpeedMultiplier (onGlobalSpeedInput step v s) = 0)) /\
  (forall p, assoc key (planets (onPlanetSpeedInput key v s)) = Some p ->
     0 <= p_individualSpeed p <= 3 /\
     (forall x, v = Some x -> x < 0 -> p_individualSpeed p = 0) /\
     (forall x, v = Some x -> 3 < x -> p_individualSpeed p = 3)).
Proof.
  intro Hst. split.
  - cbn [onGlobalSpeedInput set_globalSpeedMultiplier mk_sys globalSpeedMultiplier].
    split.
    + apply (range_sanitize_in_range (global_speed_input step)); cbn; lra.
    + intros x -> Hx.
      apply (range_sanitize_below (global_speed_input step)); cbn; lra.
  - intros p Hp.
    apply assoc_set_speed in Hp. rewrite Hp.
    split; [|split].
    + apply (range_sanitize_in_range planet_speed_input); cbn; lra.
    + intros x -> Hx. apply (range_sanitize_below planet_speed_input); cbn; lra.
    + intros x -> Hx. apply range_sanitize_planet_above; exact Hx.
Qed.

Lemma speed_multipliers_clamped_witness :
  0 < 0.1 /\
  0 <= globalSpeedMultiplier (onGlobalSpeedInput 0.1 (Some 7) (scenario_sys (page_ctl 800)))
    <= 5.
Proof.
  split; [lra|].
  apply (speed_multipliers_clamped 0.1 "earth"%string (Some 7)
           (scenario_sys (page_ctl 800)) ltac:(lra)).
Defined.

(** ** Rotation input *)

(** Claim C2 (as the code does it): a mouse move during ROTATE, and any
    one-finger touch move, subtract [2 PI (0.01 dx) / clientHeight] from
    [sphericalDelta.theta] and [2 PI (0.01 dy) / clientHeight] from
    [sphericalDelta.phi]; the mouse handler then calls [update()]. *)
Theorem rotate_input_delta (c : ctl) (x y x0 y0 h t p : R) :
  enabled (cfg c) = true -> clientHeight (cfg c) = Fin h -> h <> 0 ->
  rotateStart c = vec2_of x0 y0 ->
  sph_theta (sphericalDelta c) = Fin t -> sph_phi (sphericalDelta c) = Fin p ->
  let dtheta := 2 * PI * ((x - x0) * 0.01) / h in
  let dphi := 2 * PI * ((y - y0) * 0.01) / h in
  let expected := Sph (sph_radius (sphericalDelta c)) (Fin (p - dphi)) (Fin (t - dtheta)) in
  (currentState c = ROTATE ->
     sphericalDelta (mouseMove_switch x y c) = expected /\
     rotateStart (mouseMove_switch x y c) = vec2_of x y /\
     onMouseMove x y c = (update (mouseMove_switch x y c), true)) /\
  sphericalDelta (onTouchMove [(x, y)] c) = expected /\
  rotateStart (onTouchMove [(x, y)] c) = vec2_of x y.
Proof.
  intros He Hh Hh0 Hrs Ht Hp dtheta dphi expected.
  assert (Hrot : sphericalDelta (rotate_by (vec2_sub_scale (vec2_of x y) (rotateStart c)
                                                          (Fin 0.01)) c) = expected).
  { unfold rotate_by, rotateUp, rotateLeft, set_sphericalDelta, mk_ctl; cbn.
    rewrite Hh, Hrs, Ht, Hp; cbn.
    rewrite !jdiv_fin by exact Hh0; cbn. reflexivity. }
  split; [|split].
  - intro Hs.
    assert (Hm : onMouseMove x y c = (update (mouseMove_switch x y c), true))
      by (unfold onMouseMove; rewrite He; reflexivity).
    refine (conj _ (conj _ Hm)); unfold mouseMove_switch; rewrite Hs;
      [exact Hrot | reflexivity].
  - unfold onTouchMove; rewrite He; cbn [negb]. exact Hrot.
  - unfold onTouchMove; rewrite He; reflexivity.
Qed.

Lemma rotate_input_delta_witness :
  enabled (cfg (set_currentState (page_ctl 800) ROTATE)) = true /\
  sphericalDelta (onTouchMove [(800, 0)] (set_currentState (page_ctl 800) ROTATE)) =
    Sph (Fin 0) (Fin (0 - 2 * PI * ((0 - 0) * 0.01) / 800))
        (Fin (0 - 2 * PI * ((800 - 0) * 0.01) / 800)).
Proof.
  split; [reflexivity|].
  apply (rotate_input_delta (set_currentState (page_ctl 800) ROTATE) 800 0 0 0 800 0 0);
    try reflexivity; lra.
Defined.

(** Claim C2 as stated fails: dragging across the whole viewport height
    (800 pixels on an 800-pixel canvas) changes [sphericalDelta.theta] by
    [-2 PI / 100], not by a full turn. *)
Lemma rotate_full_height_drag :
  sph_theta (sphericalDelta
    (mouseMove_switch 800 0 (set_currentState (page_ctl 800) ROTATE))) =
    Fin (- (2 * PI / 100)) /\
  Rabs (- (2 * PI / 100)) <> 2 * PI * 800 / 800.
Proof.
  pose proof PI_gt_3.
  split.
  - cbn. rewrite jdiv_fin by lra. cbn. f_equal. lra.
  - rewrite Rabs_left by lra. lra.
Qed.

(** ** Projections of [update] *)

Lemma update_cfg (c : ctl) : cfg (update c) = cfg c.
Proof.
  unfold update; destruct (autoRotate (cfg c) && cstate_eqb (currentState c) NONE)%bool;
    reflexivity.
Qed.

Lemma update_target (c : ctl) : target (update c) = vadd (target c) (panOffset c).
Proof.
  unfold update; destruct (autoRotate (cfg c) && cstate_eqb (currentState c) NONE)%bool;
    reflexivity.
Qed.

Lemma update_panOffset (c : ctl) :
  panOffset (update c) =
    if enableDamping (cfg c) then vscale (panOffset c) (jsub (Fin 1) (dampingFactor (cfg c)))
    else vzero.
Proof.
  unfold update; destruct (autoRotate (cfg c) && cstate_eqb (currentState c) NONE)%bool;
    reflexivity.
Qed.

Lemma update_radius (c : ctl) :
  sph_radius (sph (update c)) =
    jmax (minDistance (cfg c))
      (jmin (maxDistance (cfg c))
         (jmul (sph_radius (sph_of_vec
                  (applyQuaternion (vsub (cam_pos c) (target c)) quat_identity)))
               (scale c))).
Proof.
  unfold update; destruct (autoRotate (cfg c) && cstate_eqb (currentState c) NONE)%bool;
    reflexivity.
Qed.

(** ** Pinch with a zero starting distance *)

Lemma touch_distance_same (t : R * R) : touch_distance t t = Fin 0.
Proof.
  unfold touch_distance; cbn.
  replace ((fst t - fst t) * (fst t - fst t) + (snd t - snd t) * (snd t - snd t)) with 0
    by ring.
  rewrite jsqrt_fin by lra. rewrite sqrt_0. reflexivity.
Qed.

Lemma Rpower_pos (x y : R) : 0 < Rpower x y.
Proof. unfold Rpower; apply exp_pos. Qed.

Lemma scale_touch_dolly (t0 t1 : R * R) (c : ctl) :
  scale (touch_dolly t0 t1 c) =
    jdiv (scale c) (jpow_tenth (jdiv (touch_distance t0 t1) (v2y (dollyStart c)))).
Proof. reflexivity. Qed.

(** Claim C4 (as the code does it): the two-finger touch move divides the
    new pinch distance [d] by the recorded one [d0] with no guard, and
    divides [scale] by the 0.1-th power of that ratio.  With [d0 = 0] the
    scale becomes NaN when [d = 0] and 0 when [d > 0]; with [d0 > 0] and
    [d > 0] it is the finite [scale / (d / d0) ^ 0.1]. *)
Theorem touch_dolly_unguarded (c : ctl) (t0 t1 : R * R) (s d : R) :
  enabled (cfg c) = true -> scale c = Fin s -> touch_distance t0 t1 = Fin d ->
  (v2y (dollyStart c) = Fin 0 ->
     (d = 0 -> scale (onTouchMove [t0; t1] c) = NaN) /\
     (0 < d -> scale (onTouchMove [t0; t1] c) = Fin 0)) /\
  (forall d0, v2y (dollyStart c) = Fin d0 -> 0 < d0 -> 0 < d ->
     scale (onTouchMove [t0; t1] c) = Fin (s / Rpower (d / d0) (1 / 10))).
Proof.
  intros He Hs Hd.
  assert (Ht : onTouchMove [t0; t1] c = touch_dolly t0 t1 c)
    by (unfold onTouchMove; rewrite He; reflexivity).
  rewrite Ht, scale_touch_dolly, Hs, Hd. split.
  - intro H0; rewrite H0; split.
    + intros ->. unfold jdiv at 2. rewrite !rsign_eq by reflexivity. reflexivity.
    + intro Hpos. unfold jdiv at 2. rewrite rsign_eq by reflexivity.
      rewrite rsign_gt by exact Hpos. reflexivity.
  - intros d0 H0 Hd0 Hpos. rewrite H0, jdiv_fin by lra.
    unfold jpow_tenth. rewrite rsign_gt by (apply Rdiv_lt_0_compat; lra).
    rewrite jdiv_fin by (pose proof (Rpower_pos (d / d0) (1 / 10)); lra).
    reflexivity.
Qed.

Lemma touch_dolly_unguarded_witness :
  v2y (dollyStart (onTouchStart [(5, 5); (5, 5)] (page_ctl 800))) = Fin 0 /\
  scale (onTouchMove [(5, 5); (5, 5)] (onTouchStart [(5, 5); (5, 5)] (page_ctl 800))) = NaN.
Proof.
  assert (H0 : v2y (dollyStart (onTouchStart [(5, 5); (5, 5)] (page_ctl 800))) = Fin 0)
    by exact (touch_distance_same (5, 5)).
  split; [exact H0|].
  apply (touch_dolly_unguarded (onTouchStart [(5, 5); (5, 5)] (page_ctl 800)) (5, 5) (5, 5)
           1 0 eq_refl eq_refl (touch_distance_same (5, 5))); [exact H0 | reflexivity].
Defined.

(** Claim C4 as stated fails: two fingers landing on the same point and
    moving without separating divide 0 by 0; [scale] becomes NaN, and the
    next [update()] makes the radius NaN. *)
Lemma zero_pinch_scale_nan :
  v2y (dollyStart (onTouchStart [(5, 5); (5, 5)] (page_ctl 800))) = Fin 0 /\
  scale (onTouchMove [(5, 5); (5, 5)] (onTouchStart [(5, 5); (5, 5)] (page_ctl 800))) = NaN /\
  sph_radius (sph (update
    (onTouchMove [(5, 5); (5, 5)] (onTouchStart [(5, 5); (5, 5)] (page_ctl 800))))) = NaN.
Proof.
  assert (H0 : v2y (dollyStart (onTouchStart [(5, 5); (5, 5)] (page_ctl 800))) = Fin 0)
    by exact (touch_distance_same (5, 5)).
  assert (Hs : scale (onTouchMove [(5, 5); (5, 5)]
                        (onTouchStart [(5, 5); (5, 5)] (page_ctl 800))) = NaN).
  { change (scale (touch_dolly (5, 5) (5, 5) (onTouchStart [(5, 5); (5, 5)] (page_ctl 800)))
            = NaN).
    rewrite scale_touch_dolly, H0, touch_distance_same.
    unfold jdiv at 2. rewrite !rsign_eq by reflexivity. reflexivity. }
  split; [exact H0|]. split; [exact Hs|].
  rewrite update_radius, Hs, jmul_NaN_r, jmin_NaN_r, jmax_NaN_r. reflexivity.
Qed.

(** ** Focus transitions *)

Lemma vlerp_one (a b : vec3) : vfin a -> vfin b -> vlerp a b (Fin 1) = b.
Proof.
  destruct a as [ax ay az], b as [bx by' bz]; unfold vfin; cbn.
  intros ([x1 ->] & [y1 ->] & [z1 ->]) ([x2 ->] & [y2 ->] & [z2 ->]); unfold vlerp; cbn.
  f_equal; f_equal; ring.
Qed.

Lemma focus_step_target (now : R) (f : focus_anim) (c : ctl) :
  target (fst (focus_step now f c)) =
    vadd (vlerp (target c) (f_targetPosition f) (Fin (focus_eased (focus_progress now f))))
         (panOffset c).
Proof. unfold focus_step; cbv zeta; cbn [fst]; rewrite update_target; reflexivity. Qed.

Lemma focus_step_again (now : R) (f : focus_anim) (c : ctl) :
  snd (focus_step now f c) = if Rlt_dec (focus_progress now f) 1 then true else false.
Proof. reflexivity. Qed.

Lemma focus_progress_start (f : focus_anim) : focus_progress (f_startTime f) f = 0.
Proof.
  unfold focus_progress. replace ((f_startTime f - f_startTime f) / focus_duration) with 0.
  - apply Rmin_left; lra.
  - unfold focus_duration; field.
Qed.

Lemma focus_progress_done (now : R) (f : focus_anim) :
  f_startTime f + focus_duration <= now -> focus_progress now f = 1.
Proof.
  unfold focus_progress, focus_duration; intro H. apply Rmin_right.
  apply Rmult_le_reg_r with 2000; [lra|].
  unfold Rdiv; rewrite Rmult_assoc, Rinv_l by lra. lra.
Qed.

(** Claim C6 (as the code does it): each step of a focus transition sets
    the camera to [lerpVectors(start, end, eased)] and the target to
    [target.lerp(P, eased)], with the same eased fraction
    [eased = 1 - (1 - min((now - t0) / 2000, 1))^3], and then calls
    [update()]; the target after the step is that lerp plus the pending
    pan offset. *)
Theorem focus_step_eased_both (now : R) (f : focus_anim) (c : ctl) :
  let e := 1 - (1 - Rmin ((now - f_startTime f) / 2000) 1) ^ 3 in
  fst (focus_step now f c) =
    update (set_target (set_cam_pos c (vlerpVectors (f_start f) (f_end f) (Fin e)))
                       (vlerp (target c) (f_targetPosition f) (Fin e))) /\
  target (fst (focus_step now f c)) =
    vadd (vlerp (target c) (f_targetPosition f) (Fin e)) (panOffset c).
Proof.
  intro e. split.
  - reflexivity.
  - rewrite focus_step_target. reflexivity.
Qed.

(** Claim C6 as stated fails: halfway through a transition toward a body
    at (8, 0, 0), with the target at the origin, the target is moved to
    x = 7 (the eased fraction 7/8), not to the linear 4. *)
Lemma focus_target_eased_not_linear :
  focus_progress 1000 focus_demo = / 2 /\
  vx (target (fst (focus_step 1000 focus_demo (page_ctl 800)))) = Fin 7 /\
  7 <> 0 + (8 - 0) * / 2.
Proof.
  assert (Hp : focus_progress 1000 focus_demo = / 2).
  { unfold focus_progress, focus_duration; cbn. rewrite Rmin_left; lra. }
  split; [exact Hp|]. split; [|lra].
  rewrite focus_step_target. unfold page_ctl.
  repeat first [rewrite update_target | rewrite update_panOffset | rewrite update_cfg].
  cbn. rewrite Hp. unfold focus_eased. f_equal. simpl. lra.
Qed.

(** Claim C7 (as the code does it): the step at or after 2000 ms from the
    start sets the camera to the end position captured at the start and
    the target to the destination [P] captured at the start, calls
    [update()] on that, and schedules no further step; the target is then
    [P] plus the pending pan offset.  [P] is the body's world position when
    the transition started, not where the body is when it ends. *)
Theorem focus_step_final (now : R) (f : focus_anim) (c : ctl) :
  f_startTime f + focus_duration <= now ->
  vfin (f_start f) -> vfin (f_end f) -> vfin (target c) -> vfin (f_targetPosition f) ->
  focus_step now f c =
    (update (set_target (set_cam_pos c (f_end f)) (f_targetPosition f)), false) /\
  target (fst (focus_step now f c)) = vadd (f_targetPosition f) (panOffset c).
Proof.
  intros Hd Hs He Ht Hp.
  assert (Hq : focus_eased (focus_progress now f) = 1)
    by (rewrite focus_progress_done by exact Hd; unfold focus_eased; ring).
  split.
  - unfold focus_step; cbv zeta. rewrite Hq. unfold vlerpVectors.
    rewrite (vlerp_one _ _ Hs He).
    change (target (set_cam_pos c (f_end f))) with (target c).
    rewrite (vlerp_one _ _ Ht Hp), focus_progress_done by exact Hd.
    destruct (Rlt_dec 1 1); [lra | reflexivity].
  - rewrite focus_step_target, Hq, (vlerp_one _ _ Ht Hp). reflexivity.
Qed.

Lemma focus_step_final_witness :
  focus_step 2000 focus_demo (constructed_ctl 800) =
    (update (set_target (set_cam_pos (constructed_ctl 800) (vec3_of 8 4 8))
                        (vec3_of 8 0 0)), false) /\
  target (fst (focus_step 2000 focus_demo (constructed_ctl 800))) =
    vadd (vec3_of 8 0 0) vzero.
Proof.
  apply (focus_step_final 2000 focus_demo (constructed_ctl 800));
    [ unfold focus_duration; cbn; lra
    | unfold vfin; cbn; repeat split; eexists; reflexivity .. ].
Defined.

(** Claim C7 as stated fails: the Earth, focused at time 0 while the
    motion runs, has moved by the frame at 2000 ms that ends the
    transition; the target is left at the Earth's starting position
    (z = 0), while the Earth is then at z = -24 sin 0.02. *)
Lemma focus_earth_target_lags :
  let s := frame 2000 (focusOnObject "earth"%string 0 (scenario_sys (page_ctl 800))) in
  focuses s = [] /\
  exists p, assoc "earth"%string (planets s) = Some p /\
            target (controls s) <> planet_world_position p.
Proof.
  intro s. subst s. unfold focusOnObject. cbn -[update focus_step page_ctl].
  match goal with |- context [focus_step 0 ?f ?c] =>
    rewrite (surjective_pairing (focus_step 0 f c)), (focus_step_again 0 f c);
    set (f0 := f); set (c0 := c) end.
  destruct (Rlt_dec (focus_progress 0 f0) 1) as [_|Hn];
    [| exfalso; apply Hn;
       exact (eq_ind_r (fun x => x < 1) Rlt_0_1 (focus_progress_start f0))].
  unfold frame, animate. cbn -[update focus_step page_ctl].
  match goal with |- context [focus_step 2000 f0 ?c] =>
    rewrite (surjective_pairing (focus_step 2000 f0 c)), (focus_step_again 2000 f0 c);
    set (c1 := c) end.
  destruct (Rlt_dec (focus_progress 2000 f0) 1) as [Hl|_];
    [ rewrite focus_progress_done in Hl; [lra | cbn; unfold focus_duration; lra] |].
  cbn -[update focus_step page_ctl].
  split; [reflexivity|]. eexists; split; [reflexivity|].
  rewrite focus_step_target. subst c1 c0. unfold page_ctl.
  repeat first [rewrite update_target | rewrite update_panOffset | rewrite update_cfg].
  intro Heq; apply (f_equal vz) in Heq. cbn in Heq.
  injection Heq as Heq. rewrite sin_0, cos_0 in Heq.
  assert (Hs : 0 < sin (0 + 0.01 * (2 * 1))) by (pose proof PI_gt_3; apply sin_gt_0; lra).
  ring_simplify in Heq. lra.
Qed.

(** ** Finite values *)

Lemma jfin_Fin (r : R) : jfin (Fin r).
Proof. exists r; reflexivity. Qed.


Lemma jfin_add (a b : jsnum) : jfin a -> jfin b -> jfin (jadd a b).
Proof. intros [x ->] [y ->]; apply jfin_Fin. Qed.








Lemma jmin_fin (x y : R) : jmin (Fin x) (Fin y) = Fin (Rmin x y).
Proof. reflexivity. Qed.

Lemma jmax_fin (x y : R) : jmax (Fin x) (Fin y) = Fin (Rmax x y).
Proof. reflexivity. Qed.

Lemma vfin_V3 (a b c : jsnum) : jfin a -> jfin b -> jfin c -> vfin (V3 a b c).
Proof. intros Ha Hb Hc; exact (conj Ha (conj Hb Hc)). Qed.

Lemma vfin_add (a b : vec3) : vfin a -> vfin b -> vfin (vadd a b).
Proof.
  intros (? & ? & ?) (? & ? & ?); apply vfin_V3; apply jfin_add; assumption.
Qed.







Lemma sum_squares_nonneg (x y z : R) : 0 <= x * x + y * y + z * z.
Proof. nra. Qed.






(** ** [update()] on finite states *)





(** ** The handlers on finite states *)

Lemma vfin_vec3_of (x y z : R) : vfin (vec3_of x y z).
Proof. apply vfin_V3; apply jfin_Fin. Qed.

Lemma v2fin_of (x y : R) : v2fin (vec2_of x y).
Proof. split; apply jfin_Fin. Qed.
















Lemma coincident_pinch_radius :
  sph_radius (sph (update
    (onTouchMove [(5, 5); (5, 5)] (onTouchStart [(5, 5); (5, 5)] (page_ctl 800))))) = NaN.
Proof.
  assert (Hs : scale (onTouchMove [(5, 5); (5, 5)]
                        (onTouchStart [(5, 5); (5, 5)] (page_ctl 800))) = NaN).
  { change (scale (touch_dolly (5, 5) (5, 5) (onTouchStart [(5, 5); (5, 5)] (page_ctl 800)))
            = NaN).
    rewrite scale_touch_dolly.
    change (v2y (dollyStart (onTouchStart [(5, 5); (5, 5)] (page_ctl 800))))
      with (touch_distance (5, 5) (5, 5)).
    rewrite touch_distance_same.
    unfold jdiv at 2. rewrite !rsign_eq by reflexivity. reflexivity. }
  rewrite update_radius, Hs, jmul_NaN_r, jmin_NaN_r, jmax_NaN_r. reflexivity.
Qed.

(** Claim C1 as stated fails: on the page's controller, two fingers put
    down on one point and moved without separating make [scale] NaN, and
    the [update()] of the next frame leaves a NaN radius, which lies in no
    interval [[minDistance, maxDistance]]. *)
Lemma coincident_pinch_breaks_clamp :
  ~ Forall (clamped (page_cfg 800))
      (updates_of (page_ctl 800)
         [TouchStart [(5, 5); (5, 5)]; TouchMove [(5, 5); (5, 5)]; AnimationFrame]).
Proof.
  intro H. cbn -[update onTouchStart onTouchMove] in H.
  inversion H as [| x l Hx _]; subst. destruct Hx as (_ & _ & Hmin & _).
  rewrite coincident_pinch_radius in Hmin. exact Hmin.
Qed.

(** Claim C1 (as the code does it): the radius clamp of [update()] does
    not survive an unguarded pinch.  On any enabled controller, two
    fingers put down on one point [t] and moved without separating record
    a pinch distance of 0 and then divide 0 by 0: [scale] becomes NaN, the
    next [update()] computes a NaN radius that [Math.max]/[Math.min] pass
    through, and the state is outside [[minDistance, maxDistance]] whatever
    the settings. *)
Theorem coincident_pinch_unclamped (c : ctl) (t : R * R) :
  enabled (cfg c) = true ->
  scale (onTouchMove [t; t] (onTouchStart [t; t] c)) = NaN /\
  sph_radius (sph (update (onTouchMove [t; t] (onTouchStart [t; t] c)))) = NaN /\
  ~ clamped (cfg c) (update (onTouchMove [t; t] (onTouchStart [t; t] c))).
Proof.
  intro He.
  assert (E1 : onTouchStart [t; t] c =
                 set_dollyStart (set_currentState c DOLLY) (V2 (Fin 0) (touch_distance t t)))
    by (unfold onTouchStart; rewrite He; reflexivity).
  assert (E2 : onTouchMove [t; t] (onTouchStart [t; t] c) =
                 touch_dolly t t (onTouchStart [t; t] c))
    by (unfold onTouchMove; rewrite E1; cbn [cfg set_dollyStart set_currentState mk_ctl];
        rewrite He; reflexivity).
  assert (Hs : scale (onTouchMove [t; t] (onTouchStart [t; t] c)) = NaN).
  { rewrite E2, scale_touch_dolly.
    replace (v2y (dollyStart (onTouchStart [t; t] c))) with (touch_distance t t)
      by (rewrite E1; reflexivity).
    rewrite touch_distance_same. unfold jdiv at 2. rewrite !rsign_eq by reflexivity.
    destruct (scale (onTouchStart [t; t] c)); reflexivity. }
  assert (Hr : sph_radius (sph (update (onTouchMove [t; t] (onTouchStart [t; t] c)))) = NaN)
    by (rewrite update_radius, Hs, jmul_NaN_r, jmin_NaN_r, jmax_NaN_r; reflexivity).
  split; [exact Hs|]. split; [exact Hr|].
  intros (_ & _ & Hm & _). rewrite Hr in Hm. destruct (minDistance (cfg c)); exact Hm.
Qed.

Lemma coincident_pinch_unclamped_witness :
  enabled (cfg (page_ctl 800)) = true /\
  ~ clamped (cfg (page_ctl 800))
      (update (onTouchMove [(5, 5); (5, 5)] (onTouchStart [(5, 5); (5, 5)] (page_ctl 800)))).
Proof.
  split; [reflexivity|].
  exact (proj2 (proj2 (coincident_pinch_unclamped (page_ctl 800) (5, 5) eq_refl))).
Defined.

(* ================================================================== *)
(** * Further properties of the code *)

(** ** Fallback controls *)






(** ** Pointer position *)

(** [updateMousePosition]: for a canvas of positive size, a pointer inside
    its bounding rectangle is mapped into [[-1, 1]] on both axes, the
    vertical axis pointing up; the map is affine and inverted by
    [clientX = left + (x + 1) / 2 * width],
    [clientY = top + (1 - y) / 2 * height]. *)
Theorem updateMousePosition_ndc (rc : dom_rect) (clientX clientY : R) :
  0 < rect_width rc -> 0 < rect_height rc ->
  rect_left rc <= clientX <= rect_left rc + rect_width rc ->
  rect_top rc <= clientY <= rect_top rc + rect_height rc ->
  exists x y, updateMousePosition rc clientX clientY = vec2_of x y /\
    -1 <= x <= 1 /\ -1 <= y <= 1 /\
    clientX = rect_left rc + (x + 1) / 2 * rect_width rc /\
    clientY = rect_top rc + (1 - y) / 2 * rect_height rc.
Proof.
  intros Hw Hh Hx Hy. unfold updateMousePosition. cbn [jsub].
  rewrite !jdiv_fin by lra. cbn.
  set (u := (clientX - rect_left rc) / rect_width rc).
  set (v := (clientY - rect_top rc) / rect_height rc).
  assert (Hu : 0 <= u <= 1).
  { unfold u; split.
    - unfold Rdiv; apply Rmult_le_pos; [lra | left; apply Rinv_0_lt_compat; lra].
    - apply (Rmult_le_reg_r (rect_width rc)); [lra|].
      unfold Rdiv; rewrite Rmult_assoc, Rinv_l by lra. lra. }
  assert (Hv : 0 <= v <= 1).
  { unfold v; split.
    - unfold Rdiv; apply Rmult_le_pos; [lra | left; apply Rinv_0_lt_compat; lra].
    - apply (Rmult_le_reg_r (rect_height rc)); [lra|].
      unfold Rdiv; rewrite Rmult_assoc, Rinv_l by lra. lra. }
  exists (u * 2 - 1), (- v * 2 + 1). split; [reflexivity|].
  split; [lra|]. split; [lra|]. split.
  - unfold u; field; lra.
  - unfold v; field; lra.
Qed.

Lemma updateMousePosition_ndc_witness :
  (0 < 800 /\ 0 < 600 /\ 0 <= 200 <= 0 + 800 /\ 0 <= 450 <= 0 + 600) /\
  exists x y, updateMousePosition {| rect_left := 0; rect_top := 0; rect_width := 800;
                                     rect_height := 600 |} 200 450 = vec2_of x y /\
    -1 <= x <= 1 /\ -1 <= y <= 1 /\
    200 = 0 + (x + 1) / 2 * 800 /\ 450 = 0 + (1 - y) / 2 * 600.
Proof.
  split; [lra|].
  apply (updateMousePosition_ndc {| rect_left := 0; rect_top := 0; rect_width := 800;
                                    rect_height := 600 |} 200 450); cbn; lra.
Defined.

(** ** Theme *)

(** [toggleTheme]: after [n + 1] clicks the theme is "dark" exactly when
    it started "light" and [n] is even, or did not start "light" and [n] is
    odd; otherwise it is "light".  A missing [data-theme] attribute counts
    as not "light", so the first click then sets "light".  The icon always
    matches: the moon with "dark", the sun with "light". *)
Theorem toggleTheme_alternates (t : theme_state) (n : nat) :
  let L := match body_theme t with Some th => String.eqb th "light" | None => false end in
  let t' := Nat.iter (S n) toggleTheme t in
  body_theme t' = Some (if Bool.eqb L (Nat.even n) then "dark" else "light")%string /\
  icon t' = Some (if Bool.eqb L (Nat.even n) then MoonIcon else SunIcon).
Proof.
  cbv zeta. induction n as [|n IH].
  - change (Nat.iter 1 toggleTheme t) with (toggleTheme t). cbn [Nat.even].
    unfold toggleTheme.
    destruct (body_theme t) as [th|]; [|split; reflexivity].
    destruct (String.eqb th "light"); split; reflexivity.
  - rewrite Nat.iter_succ. destruct IH as [IH1 IH2].
    set (u := Nat.iter (S n) toggleTheme t) in *. unfold toggleTheme. rewrite IH1. rewrite Nat.even_succ, <- Nat.negb_even.
    destruct (match body_theme t with Some th => String.eqb th "light" | None => false end),
             (Nat.even n); split; reflexivity.
Qed.

(** ** Building the system *)

Lemma assoc_absent {A : Type} (k : string) (l : list (string * A)) :
  ~ In k (map fst l) -> assoc k l = None.
Proof.
  induction l as [|[k' a'] l IH]; intro H; [reflexivity|]. cbn.
  destruct (String.eqb_spec k k') as [->|Hne].
  - exfalso; apply H; left; reflexivity.
  - apply IH; intro Hin; apply H; right; exact Hin.
Qed.

Lemma assoc_put_fresh {A : Type} (k : string) (a : A) (l : list (string * A)) :
  ~ In k (map fst l) -> assoc_put k a l = l ++ [(k, a)].
Proof.
  induction l as [|[k' a'] l IH]; intro H; [reflexivity|]. cbn.
  destruct (String.eqb_spec k k') as [->|Hne].
  - exfalso; apply H; left; reflexivity.
  - f_equal; apply IH; intro Hin; apply H; right; exact Hin.
Qed.

Lemma assoc_put_same {A : Type} (k : string) (a : A) (l : list (string * A)) :
  assoc k (assoc_put k a l) = Some a.
Proof.
  induction l as [|[k' a'] l IH]; cbn.
  - rewrite String.eqb_refl; reflexivity.
  - destruct (String.eqb_spec k k') as [->|Hne]; cbn.
    + rewrite String.eqb_refl; reflexivity.
    + apply String.eqb_neq in Hne; rewrite Hne; exact IH.
Qed.

Lemma assoc_put_other {A : Type} (k k' : string) (a : A) (l : list (string * A)) :
  k' <> k -> assoc k' (assoc_put k a l) = assoc k' l.
Proof.
  intro Hne. pose proof Hne as Hb; apply String.eqb_neq in Hb.
  induction l as [|[k0 a0] l IH]; cbn.
  - rewrite Hb; reflexivity.
  - destruct (String.eqb_spec k k0) as [<-|Hk]; cbn.
    + rewrite Hb; reflexivity.
    + destruct (String.eqb k' k0); [reflexivity | exact IH].
Qed.

Lemma createPlanets_absent (es : list (string * planet_data)) (rnd : nat -> R) (i : nat)
  (s : sys) (k : string) :
  ~ In k (map fst es) -> assoc k (planets (createPlanets es rnd i s)) = assoc k (planets s).
Proof.
  revert i s; induction es as [|[k0 d0] es IH]; intros i s H; [reflexivity|].
  cbn [createPlanets]. rewrite IH by (intro Hin; apply H; right; exact Hin).
  unfold createPlanet_in; cbn [planets mk_sys]. apply assoc_put_other.
  intros ->; apply H; left; reflexivity.
Qed.

Lemma createPlanets_keys (es : list (string * planet_data)) (rnd : nat -> R) (i : nat)
  (s : sys) :
  NoDup (map fst es) -> (forall k, In k (map fst es) -> ~ In k (map fst (planets s))) ->
  map fst (planets (createPlanets es rnd i s)) = map fst (planets s) ++ map fst es.
Proof.
  revert i s; induction es as [|[k0 d0] es IH]; intros i s Hnd Hf.
  - cbn; rewrite app_nil_r; reflexivity.
  - cbn [map fst] in Hnd; inversion Hnd as [|x l Hk0 Hnd' E]; subst.
    cbn [createPlanets]. rewrite IH; [| exact Hnd' |].
    + unfold createPlanet_in; cbn [planets mk_sys].
      rewrite assoc_put_fresh by (apply Hf; left; reflexivity).
      rewrite map_app, <- app_assoc; reflexivity.
    + intros k Hk. unfold createPlanet_in; cbn [planets mk_sys].
      rewrite assoc_put_fresh by (apply Hf; left; reflexivity).
      rewrite map_app; intro Hin; apply in_app_or in Hin as [Hin|Hin].
      * apply (Hf k); [right; exact Hk | exact Hin].
      * destruct Hin as [E|[]]; cbn in E; subst; contradiction.
Qed.

Lemma createPlanets_nth (es : list (string * planet_data)) (rnd : nat -> R) (i j : nat)
  (s : sys) (k : string) (d : planet_data) :
  NoDup (map fst es) -> nth_error es j = Some (k, d) ->
  assoc k (planets (createPlanets es rnd i s)) = Some (createPlanet d (rnd (i + j)%nat * PI * 2)).
Proof.
  revert i j s; induction es as [|[k0 d0] es IH]; intros i j s Hnd Hj.
  - destruct j; discriminate.
  - cbn [map fst] in Hnd; inversion Hnd as [|x l Hk0 Hnd' E]; subst.
    destruct j as [|j]; cbn in Hj.
    + injection Hj as <- <-. cbn [createPlanets].
      rewrite createPlanets_absent by exact Hk0.
      unfold createPlanet_in; cbn [planets mk_sys]. rewrite assoc_put_same, Nat.add_0_r.
      reflexivity.
    + cbn [createPlanets]. rewrite (IH (S i) j) by assumption.
      rewrite Nat.add_succ_r; reflexivity.
Qed.

Lemma createPlanets_moons (es : list (string * planet_data)) (rnd : nat -> R) (i : nat)
  (s : sys) :
  NoDup (map fst es) ->
  moons (createPlanets es rnd i s) =
    match assoc "earth" es with
    | Some d => assoc_put "earth" (earth_moon (pd_radius d)) (moons s)
    | None => moons s
    end.
Proof.
  revert i s; induction es as [|[k0 d0] es IH]; intros i s Hnd; [reflexivity|].
  cbn [map fst] in Hnd; inversion Hnd as [|x l Hk0 Hnd' E]; subst.
  cbn [createPlanets assoc]. rewrite IH by exact Hnd'.
  unfold createPlanet_in; cbn [moons mk_sys].
  rewrite (String.eqb_sym "earth" k0).
  destruct (String.eqb_spec k0 "earth") as [->|Hne].
  - rewrite assoc_absent by exact Hk0; reflexivity.
  - reflexivity.
Qed.

(** [createSolarSystem] from the constructor's state, over entries with
    distinct keys: [this.planets] gets the keys in entry order; the body of
    the [i]-th entry starts at angle [rnd i * 2 PI] (from its [i]-th
    [Math.random()]), individual speed 1 and unrotated; [this.moons] holds
    exactly one moon, at three planet radii, when an entry has the key
    "earth", and none otherwise. *)
Theorem createSolarSystem_bodies (entries : list (string * planet_data)) (rnd : nat -> R)
  (c : ctl) :
  NoDup (map fst entries) ->
  let s := createSolarSystem entries rnd (initial_sys c) in
  map fst (planets s) = map fst entries /\
  (forall i k d, nth_error entries i = Some (k, d) ->
     assoc k (planets s) = Some (createPlanet d (rnd i * PI * 2))) /\
  moons s = match assoc "earth" entries with
            | Some d => [("earth"%string, earth_moon (pd_radius d))]
            | None => []
            end.
Proof.
  intros Hnd. cbv zeta. unfold createSolarSystem. split; [|split].
  - rewrite createPlanets_keys by (assumption || (intros k _ [])). reflexivity.
  - intros i k d Hi. apply (createPlanets_nth entries rnd 0 i); assumption.
  - rewrite createPlanets_moons by exact Hnd.
    destruct (assoc "earth" entries); reflexivity.
Qed.

Lemma createSolarSystem_bodies_witness :
  NoDup (map fst planetData) /\
  let s := createSolarSystem planetData (fun _ => 0) (initial_sys (page_ctl 800)) in
  map fst (planets s) = map fst planetData /\
  (forall i k d, nth_error planetData i = Some (k, d) ->
     assoc k (planets s) = Some (createPlanet d ((fun _ => 0) i * PI * 2))) /\
  moons s = match assoc "earth" planetData with
            | Some d => [("earth"%string, earth_moon (pd_radius d))]
            | None => []
            end.
Proof.
  assert (H : NoDup (map fst planetData)).
  { cbn. repeat constructor; cbn; intuition discriminate. }
  split; [exact H|]. exact (createSolarSystem_bodies planetData (fun _ => 0) (page_ctl 800) H).
Defined.

(** ** Controller and motion *)

Lemma vdistanceTo_fin (a1 a2 a3 b1 b2 b3 : R) :
  vdistanceTo (vec3_of a1 a2 a3) (vec3_of b1 b2 b3) =
    Fin (sqrt ((a1 - b1) * (a1 - b1) + (a2 - b2) * (a2 - b2) + (a3 - b3) * (a3 - b3))).
Proof. unfold vdistanceTo; cbn. rewrite jsqrt_fin by apply sum_squares_nonneg. reflexivity. Qed.

Lemma vnormalize_fin (x y z : R) :
  exists q, vnormalize (vec3_of x y z) = vec3_of (x * q) (y * q) (z * q).
Proof.
  unfold vnormalize, vlength; cbn. rewrite jsqrt_fin by apply sum_squares_nonneg.
  unfold jtruthy. destruct (Req_dec_T (sqrt (x * x + y * y + z * z)) 0) as [E|E].
  - rewrite jdiv_fin by lra. eexists; reflexivity.
  - rewrite jdiv_fin by exact E. eexists; reflexivity.
Qed.

Lemma vnormalize_up : vnormalize cam_up = vec3_of 0 1 0.
Proof.
  destruct (vnormalize_fin 0 1 0) as [q Hq]. unfold cam_up. rewrite Hq.
  unfold vnormalize, vlength in Hq; cbn in Hq.
  replace (0 * 0 + 1 * 1 + 0 * 0) with 1 in Hq by ring.
  rewrite jsqrt_fin, sqrt_1 in Hq by lra. unfold jtruthy in Hq.
  destruct (Req_dec_T 1 0) as [E|_]; [lra|]. rewrite jdiv_fin in Hq by lra.
  injection Hq as _ Hq _. unfold vec3_of. f_equal; f_equal; nra.
Qed.

(** [pan(deltaX, deltaY)] on a finite controller: the horizontal part of
    the offset it adds to [panOffset] lies in the ground plane and is
    perpendicular to the viewing direction (camera minus target), and
    vanishes when [deltaX = 0]; the [deltaY] part moves along the world's
    up axis (0, 1, 0), not the screen's, and vanishes when [deltaY = 0]. *)
Theorem pan_directions (c : ctl) (dx dy : R) :
  cfg_ok (cfg c) -> ctl_fin c ->
  exists px py pz ex ey ez ox oz k2,
    panOffset c = vec3_of px py pz /\ vsub (cam_pos c) (target c) = vec3_of ex ey ez /\
    panOffset (pan (Fin dx) (Fin dy) c) = vec3_of (px + ox) (py + k2) (pz + oz) /\
    ox * ex + oz * ez = 0 /\ (dx = 0 -> ox = 0 /\ oz = 0) /\ (dy = 0 -> k2 = 0).
Proof.
  intros ((h & Hh & Hhpos) & _ & _ & _ & [fov Hfov]) (Hp & Ht & _ & _ & Hpo & _).
  destruct (cam_pos c) as [a1 a2 a3] eqn:Ep, (target c) as [b1 b2 b3] eqn:Et,
    (panOffset c) as [p1 p2 p3] eqn:Epo.
  destruct Hp as ([x1 E1] & [x2 E2] & [x3 E3]); cbn in E1, E2, E3; subst a1 a2 a3.
  destruct Ht as ([y1 E1] & [y2 E2] & [y3 E3]); cbn in E1, E2, E3; subst b1 b2 b3.
  destruct Hpo as ([z1 E1] & [z2 E2] & [z3 E3]); cbn in E1, E2, E3; subst p1 p2 p3.
  destruct (vnormalize_fin (x1 - y1) (x2 - y2) (x3 - y3)) as [q Hq].
  unfold pan. rewrite Ep, Et, Epo, Hh, Hfov.
  change (V3 (Fin x1) (Fin x2) (Fin x3)) with (vec3_of x1 x2 x3).
  change (V3 (Fin y1) (Fin y2) (Fin y3)) with (vec3_of y1 y2 y3).
  rewrite vdistanceTo_fin, vnormalize_up.
  change (vsub (vec3_of x1 x2 x3) (vec3_of y1 y2 y3))
    with (vec3_of (x1 - y1) (x2 - y2) (x3 - y3)).
  rewrite Hq. rewrite !jdiv_fin by lra.
  unfold jtan, vadd, vscale, vcross, cam_up, vec3_of; cbn -[jdiv].
  rewrite !jdiv_fin by lra.
  set (P := 2 * sqrt ((x1 - y1) * (x1 - y1) + (x2 - y2) * (x2 - y2) + (x3 - y3) * (x3 - y3))
            * tan (fov / 2 * PI / 180)).
  exists z1, z2, z3, (x1 - y1), (x2 - y2), (x3 - y3).
  exists ((1 * ((x3 - y3) * q) - 0 * ((x2 - y2) * q)) * (- dx * P / h)).
  exists ((0 * ((x2 - y2) * q) - 1 * ((x1 - y1) * q)) * (- dx * P / h)).
  exists (dy * P / h).
  split; [reflexivity|]. split; [reflexivity|]. split.
  - cbn [jadd]; f_equal; f_equal; ring.
  - split; [ring|]. split.
    + intros ->. split; unfold Rdiv; ring.
    + intros ->. unfold Rdiv; ring.
Qed.

Lemma applyQuaternion_identity (x y z : R) :
  applyQuaternion (vec3_of x y z) quat_identity = vec3_of x y z.
Proof. unfold applyQuaternion; cbn. unfold vec3_of; f_equal; f_equal; ring. Qed.

Lemma offset_radius (v : vec3) (x y z : R) :
  v = vec3_of x y z ->
  sph_radius (sph_of_vec (applyQuaternion v quat_identity)) = Fin (sqrt (x * x + y * y + z * z)).
Proof.
  intros ->. rewrite applyQuaternion_identity. unfold sph_of_vec; cbn.
  rewrite jsqrt_fin by apply sum_squares_nonneg.
  destruct (jeqb _ (Fin 0)); reflexivity.
Qed.

(** Zoom steps of [onMouseWheel] and of a middle-button drag
    ([onMouseMove] in the DOLLY state): each event multiplies the distance
    used by the closing [update()] by 0.95 (negative [deltaY], or pointer
    moved up), by 1 / 0.95 (positive, or moved down) or by 1, however large
    the wheel delta or the pointer movement; the result is clamped to
    [[minDistance, maxDistance]]. *)
Theorem zoom_step_factor (c : ctl) (e1 e2 e3 s : R) :
  enabled (cfg c) = true -> vsub (cam_pos c) (target c) = vec3_of e1 e2 e3 ->
  scale c = Fin s ->
  let r := sqrt (e1 * e1 + e2 * e2 + e3 * e3) in
  let step (d : R) := if Rlt_dec d 0 then 0.95 else if Rlt_dec 0 d then 1 / 0.95 else 1 in
  (forall deltaY, sph_radius (sph (fst (onMouseWheel deltaY c))) =
     jclamp (Fin (r * (s * step deltaY))) (minDistance (cfg c)) (maxDistance (cfg c))) /\
  (forall x y y0, currentState c = DOLLY -> v2y (dollyStart c) = Fin y0 ->
     sph_radius (sph (fst (onMouseMove x y c))) =
       jclamp (Fin (r * (s * step (y - y0)))) (minDistance (cfg c)) (maxDistance (cfg c))).
Proof.
  intros He Hv Hs. cbv zeta. split.
  - intro dy. unfold onMouseWheel. rewrite He. cbn [negb fst].
    rewrite update_radius.
    destruct (Rlt_dec dy 0) as [H1|H1]; [|destruct (Rlt_dec 0 dy) as [H2|H2]];
      unfold dollyOut, dollyIn, getZoomScale, set_scale_zoom; cbn [cam_pos target scale cfg mk_ctl];
      rewrite (offset_radius _ _ _ _ Hv), Hs; unfold jclamp.
    + reflexivity.
    + rewrite jdiv_fin by lra. cbn [jmul]. do 4 f_equal. unfold Rdiv; ring.
    + cbn [jmul]. do 4 f_equal; ring.
  - intros x y y0 Hst Hy0. unfold onMouseMove. rewrite He. cbn [negb fst].
    rewrite update_radius. unfold mouseMove_switch. rewrite Hst, Hy0.
    cbn [vec2_of v2y jsub].
    unfold jltb. destruct (Rlt_dec 0 (y - y0)) as [H1|H1];
      [|destruct (Rlt_dec (y - y0) 0) as [H2|H2]];
      unfold dollyOut, dollyIn, getZoomScale, set_scale_zoom, set_dollyStart;
      cbn [cam_pos target scale cfg mk_ctl];
      rewrite (offset_radius _ _ _ _ Hv), Hs; unfold jclamp.
    + rewrite jdiv_fin by lra. destruct (Rlt_dec (y - y0) 0); [lra|].
      destruct (Rlt_dec 0 (y - y0)); [|lra]. cbn [jmul]. do 4 f_equal; unfold Rdiv; ring.
    + destruct (Rlt_dec (y - y0) 0); [|lra]. cbn [jmul]. do 4 f_equal; unfold Rdiv; ring.
    + destruct (Rlt_dec (y - y0) 0); [lra|]. destruct (Rlt_dec 0 (y - y0)); [lra|].
      cbn [jmul]. do 4 f_equal; unfold Rdiv; ring.
Qed.

Lemma Rpower_gt_1 (x y : R) : 1 < x -> 0 < y -> 1 < Rpower x y.
Proof.
  intros Hx Hy. unfold Rpower. rewrite <- exp_0. apply exp_increasing.
  apply Rmult_lt_0_compat; [exact Hy|]. rewrite <- ln_1. apply ln_increasing; lra.
Qed.

Lemma Rpower_lt_1 (x y : R) : 0 < x -> x < 1 -> 0 < y -> Rpower x y < 1.
Proof.
  intros Hx0 Hx Hy. unfold Rpower. rewrite <- exp_0. apply exp_increasing.
  assert (ln x < 0) by (rewrite <- ln_1; apply ln_increasing; lra).
  nra.
Qed.

Lemma Rpower_base_1 (y : R) : Rpower 1 y = 1.
Proof. unfold Rpower. rewrite ln_1, Rmult_0_r. apply exp_0. Qed.

(** Two-finger [onTouchMove] with positive recorded and new pinch
    distances [d0] and [d]: [scale] stays positive, decreases when the
    fingers spread ([d > d0], the camera moves closer at the next
    [update()]), increases when they close, is unchanged when the distance
    is, and [d] becomes the recorded distance. *)
Theorem pinch_zoom_direction (c : ctl) (t0 t1 : R * R) (s d0 d : R) :
  enabled (cfg c) = true -> scale c = Fin s -> 0 < s ->
  v2y (dollyStart c) = Fin d0 -> 0 < d0 -> touch_distance t0 t1 = Fin d -> 0 < d ->
  exists s', scale (onTouchMove [t0; t1] c) = Fin s' /\ 0 < s' /\
    (d0 < d -> s' < s) /\ (d < d0 -> s < s') /\ (d = d0 -> s' = s) /\
    v2y (dollyStart (onTouchMove [t0; t1] c)) = Fin d.
Proof.
  intros He Hs Hs0 H0 Hd0 Hd Hdpos.
  assert (Ht : onTouchMove [t0; t1] c = touch_dolly t0 t1 c)
    by (unfold onTouchMove; rewrite He; reflexivity).
  rewrite Ht, scale_touch_dolly, Hs, Hd, H0, jdiv_fin by lra.
  unfold jpow_tenth. rewrite rsign_gt by (apply Rdiv_lt_0_compat; lra).
  set (P := Rpower (d / d0) (1 / 10)).
  assert (HP : 0 < P) by apply Rpower_pos.
  rewrite jdiv_fin by lra. exists (s / P). split; [reflexivity|].
  split; [apply Rdiv_lt_0_compat; lra|]. split; [|split; [|split]].
  - intro Hlt. assert (1 < P).
    { apply Rpower_gt_1; [|lra]. apply (Rmult_lt_reg_r d0); [lra|].
      unfold Rdiv; rewrite Rmult_assoc, Rinv_l by lra. lra. }
    apply (Rmult_lt_reg_r P); [lra|]. unfold Rdiv; rewrite Rmult_assoc, Rinv_l by lra. nra.
  - intro Hlt. assert (P < 1).
    { apply Rpower_lt_1; [apply Rdiv_lt_0_compat; lra| |lra].
      apply (Rmult_lt_reg_r d0); [lra|].
      unfold Rdiv; rewrite Rmult_assoc, Rinv_l by lra. lra. }
    apply (Rmult_lt_reg_r P); [lra|]. unfold Rdiv; rewrite Rmult_assoc, Rinv_l by lra. nra.
  - intros ->. unfold P. rewrite Rdiv_diag by lra. rewrite Rpower_base_1. field.
  - exact Hd.
Qed.

Lemma update_sphericalDelta (c : ctl) :
  autoRotate (cfg c) = false ->
  sphericalDelta (update c) =
    if enableDamping (cfg c)
    then Sph (sph_radius (sphericalDelta c))
             (jmul (sph_phi (sphericalDelta c)) (jsub (Fin 1) (dampingFactor (cfg c))))
             (jmul (sph_theta (sphericalDelta c)) (jsub (Fin 1) (dampingFactor (cfg c))))
    else Sph (Fin 0) (Fin 0) (Fin 0).
Proof. intro H; unfold update; rewrite H; reflexivity. Qed.

Lemma iter_update_cfg (n : nat) (c : ctl) : cfg (Nat.iter n update c) = cfg c.
Proof. induction n as [|n IH]; [reflexivity|]. rewrite Nat.iter_succ, update_cfg; exact IH. Qed.

(** [update()] without auto-rotation: after [n] updates with no input, the
    pending rotation ([sphericalDelta]) and pan ([panOffset]) are the
    initial ones times [k ^ n], where [k = 1 - dampingFactor] with damping
    enabled and [k = 0] without; so without damping one update consumes
    them, with damping they decay geometrically. *)
Theorem pending_motion_decay (c : ctl) (n : nat) (f p t px py pz : R) :
  autoRotate (cfg c) = false -> dampingFactor (cfg c) = Fin f ->
  sph_phi (sphericalDelta c) = Fin p -> sph_theta (sphericalDelta c) = Fin t ->
  panOffset c = vec3_of px py pz ->
  let k := if enableDamping (cfg c) then 1 - f else 0 in
  let c' := Nat.iter n update c in
  sph_phi (sphericalDelta c') = Fin (p * k ^ n) /\
  sph_theta (sphericalDelta c') = Fin (t * k ^ n) /\
  panOffset c' = vec3_of (px * k ^ n) (py * k ^ n) (pz * k ^ n).
Proof.
  intros Ha Hf Hp Ht Hpo. cbv zeta. induction n as [|n IH].
  - cbn. rewrite Hp, Ht, Hpo, !Rmult_1_r. repeat split.
  - rewrite !Nat.iter_succ. destruct IH as (IH1 & IH2 & IH3).
    set (c' := Nat.iter n update c) in *.
    assert (Hc : cfg c' = cfg c) by apply iter_update_cfg.
    rewrite update_sphericalDelta by (rewrite Hc; exact Ha).
    rewrite update_panOffset. rewrite Hc, Hf, IH1, IH2, IH3.
    destruct (enableDamping (cfg c)); unfold vscale, vzero, vec3_of;
      cbn [sph_phi sph_theta vx vy vz jsub jmul pow]; repeat split;
      first [ apply (f_equal Fin); ring | f_equal; apply (f_equal Fin); ring ].
Qed.

(** With [enabled = false] every mouse, wheel and touch handler returns at
    once: along any input sequence the controller only changes by the
    [update()] of each animation frame. *)
Theorem disabled_controls_ignore_input (c : ctl) (l : list input) :
  enabled (cfg c) = false ->
  fold_left (fun c i => fst (handle c i)) l c =
    Nat.iter (List.length (filter (fun i => match i with AnimationFrame => true | _ => false end) l))
      update c.
Proof.
  revert c; induction l as [|i l IH]; intros c He; [reflexivity|].
  destruct i; cbn [fold_left filter List.length handle fst];
    try (unfold onMouseDown, onMouseMove, onMouseUp, onMouseWheel, onTouchStart,
           onTouchMove, onTouchEnd; rewrite He; cbn [negb fst]; apply IH; exact He).
  - destruct (listening c); [unfold onMouseMove; rewrite He|]; apply IH; exact He.
  - destruct (listening c); [unfold onMouseUp; rewrite He|]; apply IH; exact He.
  - rewrite IH by (rewrite update_cfg; exact He).
    rewrite Nat.iter_succ_r; reflexivity.
Qed.

Lemma vlerp_zero (a b : vec3) : vfin a -> vfin b -> vlerp a b (Fin 0) = a.
Proof.
  destruct a as [ax ay az], b as [bx by' bz]; unfold vfin; cbn.
  intros ([x1 ->] & [y1 ->] & [z1 ->]) ([x2 ->] & [y2 ->] & [z2 ->]); unfold vlerp; cbn.
  f_equal; f_equal; ring.
Qed.

Lemma planet_world_position_fin (p : planet) : vfin (planet_world_position p).
Proof. unfold planet_world_position; cbn. apply vfin_vec3_of. Qed.

Lemma focus_step_start (f : focus_anim) (c : ctl) :
  vfin (f_start f) -> vfin (f_end f) -> vfin (f_targetPosition f) ->
  cam_pos c = f_start f -> vfin (target c) ->
  focus_step (f_startTime f) f c = (update c, true).
Proof.
  intros Hs He Hp Hc Ht. unfold focus_step. rewrite focus_progress_start.
  assert (E : focus_eased 0 = 0) by (unfold focus_eased; ring).
  rewrite E. unfold vlerpVectors. rewrite vlerp_zero by assumption.
  unfold set_cam_pos, set_target, mk_ctl; cbn [target].
  rewrite vlerp_zero by assumption. rewrite <- Hc.
  destruct (Rlt_dec 0 1) as [_|H]; [|lra]. destruct c; reflexivity.
Qed.

(** [focusOnObject(name)]: a name that is neither "sun" nor a key of
    [this.planets] changes nothing.  For "sun" (destination the origin,
    distance 15) or a planet (destination its current world position,
    distance 8 radii) it schedules one transition from the camera's
    position to destination + (d, d/2, d), whose first step, run at once,
    moves neither camera nor target before the closing [update()]. *)
Theorem focusOnObject_schedules (name : string) (now : R) (s : sys) :
  vfin (cam_pos (controls s)) -> vfin (target (controls s)) ->
  (String.eqb name "sun" = false -> assoc name (planets s) = None ->
     focusOnObject name now s = s) /\
  (forall P d,
     (String.eqb name "sun" = true /\ P = vzero /\ d = 15 \/
      String.eqb name "sun" = false /\
      exists p, assoc name (planets s) = Some p /\ P = planet_world_position p /\
                d = pd_radius (p_data p) * 8) ->
     focusOnObject name now s =
       set_controls_focuses s (update (controls s))
         (focuses s ++ [{| f_start := cam_pos (controls s);
                           f_end := vadd P (vec3_of d (d * 0.5) d);
                           f_targetPosition := P; f_startTime := now |}])).
Proof.
  intros Hc Ht. split.
  - intros Hs Hn. unfold focusOnObject. rewrite Hs, Hn. reflexivity.
  - intros P d Hd.
    assert (HP : vfin P /\ focusOnObject name now s =
      let f := {| f_start := cam_pos (controls s);
                  f_end := vadd P (V3 (Fin d) (Fin (d * 0.5)) (Fin d));
                  f_targetPosition := P; f_startTime := now |} in
      let (c', again) := focus_step now f (controls s) in
      set_controls_focuses s c' (focuses s ++ (if again then [f] else []))).
    { unfold focusOnObject.
      destruct Hd as [(Hs & -> & ->) | (Hs & p & Hp & -> & ->)]; rewrite Hs;
        [|rewrite Hp]; (split; [|reflexivity]).
      - apply vfin_vec3_of.
      - apply planet_world_position_fin. }
    destruct HP as [HP ->]. cbv zeta.
    rewrite (focus_step_start {| f_start := cam_pos (controls s);
                                 f_end := vadd P (V3 (Fin d) (Fin (d * 0.5)) (Fin d));
                                 f_targetPosition := P; f_startTime := now |});
      cbn [f_start f_end f_targetPosition]; try assumption; try reflexivity.
    apply vfin_add; [exact HP | apply vfin_vec3_of].
Qed.

Lemma assoc_map {A B : Type} (f : A -> B) (k : string) (l : list (string * A)) :
  assoc k (map (fun kp => (fst kp, f (snd kp))) l) = option_map f (assoc k l).
Proof.
  induction l as [|[k' a] l IH]; [reflexivity|]. cbn.
  destruct (String.eqb k k'); [reflexivity | exact IH].
Qed.

Lemma animate_unpaused_fields (s : sys) :
  isPaused s = false ->
  isPaused (animate s) = false /\ globalSpeedMultiplier (animate s) = globalSpeedMultiplier s /\
  sun_rot_y (animate s) = sun_rot_y s + 0.005 * globalSpeedMultiplier s /\
  planets (animate s) =
    map (fun kp => (fst kp, updatePlanet (globalSpeedMultiplier s) (snd kp))) (planets s) /\
  moons (animate s) =
    map (fun km => (fst km, updateMoon (globalSpeedMultiplier s) (snd km))) (moons s).
Proof. intro H; unfold animate; rewrite H; cbn; repeat split; exact H. Qed.

Lemma iter_animate_unpaused (n : nat) (s : sys) :
  isPaused s = false ->
  isPaused (Nat.iter n animate s) = false /\
  globalSpeedMultiplier (Nat.iter n animate s) = globalSpeedMultiplier s.
Proof.
  intro H. induction n as [|n [IH1 IH2]]; [split; [exact H | reflexivity]|].
  rewrite Nat.iter_succ. destruct (animate_unpaused_fields _ IH1) as (H1 & H2 & _).
  split; [exact H1 | rewrite H2; exact IH2].
Qed.

(** Over [n] unpaused frames ([animate]) the Sun's rotation grows by
    [n * 0.005 * g] and each planet's orbital angle and spin by [n] times
    its per-frame rate times [g * individualSpeed]; its data and
    multiplier are kept, and from the first frame on the orbit group's
    rotation equals the angle. *)
Theorem unpaused_frames_uniform (n : nat) (s : sys) (k : string) (p : planet) :
  isPaused s = false -> assoc k (planets s) = Some p ->
  let g := globalSpeedMultiplier s in
  let w := g * p_individualSpeed p in
  let s' := Nat.iter n animate s in
  sun_rot_y s' = sun_rot_y s + INR n * (0.005 * g) /\
  exists p', assoc k (planets s') = Some p' /\
    p_data p' = p_data p /\ p_individualSpeed p' = p_individualSpeed p /\
    p_angle p' = p_angle p + INR n * (pd_orbitalSpeed (p_data p) * w) /\
    p_mesh_rot_y p' = p_mesh_rot_y p + INR n * (pd_rotationSpeed (p_data p) * w) /\
    ((0 < n)%nat -> p_orbit_rot_y p' = p_angle p').
Proof.
  intros Hps Hp. cbv zeta. induction n as [|n IH].
  - change (Nat.iter 0 animate s) with s. cbn [INR].
    split; [ring|]. exists p. split; [exact Hp|].
    split; [reflexivity|]. split; [reflexivity|]. split; [ring|]. split; [ring|].
    intro H; lia.
  - rewrite Nat.iter_succ. destruct IH as (IHs & p' & Hp' & Hd & Hi & Ha & Hm & _).
    destruct (iter_animate_unpaused n s Hps) as [Hq Hg].
    set (s' := Nat.iter n animate s) in *.
    destruct (animate_unpaused_fields s' Hq) as (_ & _ & Hsun & Hpl & _).
    rewrite Hg in Hsun, Hpl. rewrite S_INR. split.
    + rewrite Hsun, IHs; ring.
    + exists (updatePlanet (globalSpeedMultiplier s) p'). rewrite Hpl, assoc_map, Hp'.
      split; [reflexivity|]. unfold updatePlanet; cbn [p_data p_individualSpeed p_angle
        p_mesh_rot_y p_orbit_rot_y].
      rewrite Hd, Hi, Ha, Hm. split; [reflexivity|]. split; [reflexivity|].
      split; [ring|]. split; [ring|]. intros _; reflexivity.
Qed.

(** After an unpaused frame every planet is at world position
    [(d cos a, 0, -d sin a)], [d] its orbital distance and [a] its angle,
    on a circle of radius [d] around the Sun in the plane y = 0; every moon
    is at distance [moon.distance] from its planet. *)
Theorem frame_orbits_circular (s : sys) :
  isPaused s = false ->
  (forall k p, assoc k (planets (animate s)) = Some p ->
     planet_world_position p =
       vec3_of (pd_distance (p_data p) * cos (p_angle p)) 0
               (- (pd_distance (p_data p) * sin (p_angle p)))) /\
  (forall k m, assoc k (moons (animate s)) = Some m ->
     m_pos_x m * m_pos_x m + m_pos_z m * m_pos_z m = m_distance m * m_distance m).
Proof.
  intro H. destruct (animate_unpaused_fields s H) as (_ & _ & _ & Hpl & Hmo). split.
  - intros k p Hp. rewrite Hpl, assoc_map in Hp.
    destruct (assoc k (planets s)) as [p0|]; [|discriminate]. injection Hp as <-.
    unfold planet_world_position, rotY, updatePlanet; cbn.
    unfold vec3_of; f_equal; f_equal; ring.
  - intros k m Hm. rewrite Hmo, assoc_map in Hm.
    destruct (assoc k (moons s)) as [m0|]; [|discriminate]. injection Hm as <-.
    unfold updateMoon; cbn [m_pos_x m_pos_z m_distance].
    set (a := m_angle m0 + m_speed m0 * globalSpeedMultiplier s).
    pose proof (sin2_cos2 a) as E. unfold Rsqr in E.
    transitivity (m_distance m0 * m_distance m0 * (sin a * sin a + cos a * cos a)); [ring|].
    rewrite E; ring.
Qed.

(** ** [update()] at rest *)

Lemma sqrt_unique_pos (s q : R) : 0 <= q -> q * q = s -> sqrt s = q.
Proof. intros Hq <-. apply sqrt_square. exact Hq. Qed.

Lemma sqrt_one_plus_ratio (x z : R) :
  z <> 0 -> sqrt (1 + (x / z) * (x / z)) = sqrt (x * x + z * z) / Rabs z.
Proof.
  intro Hz. apply sqrt_unique_pos.
  - unfold Rdiv; apply Rmult_le_pos; [apply sqrt_pos|].
    left; apply Rinv_0_lt_compat; apply Rabs_pos_lt; exact Hz.
  - assert (Ha : Rabs z * Rabs z = z * z).
    { rewrite <- Rabs_mult. apply Rabs_right. nra. }
    assert (Hs : sqrt (x * x + z * z) * sqrt (x * x + z * z) = x * x + z * z).
    { apply sqrt_sqrt; nra. }
    assert (Hza : Rabs z <> 0) by (apply Rabs_no_R0; exact Hz).
    transitivity ((sqrt (x * x + z * z) * sqrt (x * x + z * z)) / (Rabs z * Rabs z));
      [field; exact Hza|].
    rewrite Hs, Ha. field. exact Hz.
Qed.

Lemma Ratan2_sin_cos (x z : R) :
  0 < x * x + z * z ->
  sin (Ratan2 x z) = x / sqrt (x * x + z * z) /\
  cos (Ratan2 x z) = z / sqrt (x * x + z * z).
Proof.
  intro Hp. set (rho := sqrt (x * x + z * z)).
  assert (Hr : 0 < rho) by (apply sqrt_lt_R0; exact Hp).
  assert (Hrr : rho * rho = x * x + z * z) by (apply sqrt_sqrt; lra).
  unfold Ratan2.
  destruct (Rtotal_order z 0) as [Hz|[Hz|Hz]].
  - rewrite (rsign_lt z Hz).
    pose proof (sqrt_one_plus_ratio x z (Rlt_not_eq _ _ Hz)) as Hq.
    rewrite (Rabs_left z Hz) in Hq. fold rho in Hq.
    pose proof (sin_atan (x / z)) as Hs. pose proof (cos_atan (x / z)) as Hc.
    unfold Rsqr in Hs, Hc. rewrite Hq in Hs, Hc.
    assert (Hk : forall a, (sin (a - PI) = - sin a /\ cos (a - PI) = - cos a) /\
                           (sin (a + PI) = - sin a /\ cos (a + PI) = - cos a)).
    { intro a. rewrite sin_minus, cos_minus, sin_plus, cos_plus, sin_PI, cos_PI.
      repeat split; ring. }
    destruct (Hk (atan (x / z))) as [[H1 H2] [H3 H4]].
    destruct (rsign x); [rewrite H3, H4 | rewrite H1, H2 | rewrite H3, H4];
      rewrite Hs, Hc; split; field; split; lra.
  - subst z. rewrite (rsign_eq 0 eq_refl).
    destruct (Rtotal_order x 0) as [Hx|[Hx|Hx]].
    + rewrite (rsign_lt x Hx).
      assert (E : rho = - x).
      { unfold rho. apply sqrt_unique_pos; nra. }
      rewrite sin_neg, cos_neg, sin_PI2, cos_PI2, E. split; field; lra.
    + subst x. lra.
    + rewrite (rsign_gt x Hx).
      assert (E : rho = x).
      { unfold rho. apply sqrt_unique_pos; nra. }
      rewrite sin_PI2, cos_PI2, E. split; field; lra.
  - rewrite (rsign_gt z Hz).
    pose proof (sqrt_one_plus_ratio x z (Rgt_not_eq _ _ Hz)) as Hq.
    rewrite (Rabs_right z (Rle_ge _ _ (Rlt_le _ _ Hz))) in Hq. fold rho in Hq.
    pose proof (sin_atan (x / z)) as Hs. pose proof (cos_atan (x / z)) as Hc.
    unfold Rsqr in Hs, Hc. rewrite Hq in Hs, Hc.
    rewrite Hs, Hc; split; field; split; lra.
Qed.

Lemma jclamp_inside (lo hi : jsnum) (r : R) :
  jle lo (Fin r) -> jle (Fin r) hi -> jmax lo (jmin hi (Fin r)) = Fin r.
Proof.
  intros Hl Hh.
  assert (E : jmin hi (Fin r) = Fin r).
  { destruct hi; cbn in Hh; try contradiction; unfold jmin; try reflexivity.
    f_equal; apply Rmin_right; exact Hh. }
  rewrite E. destruct lo; cbn in Hl; try contradiction; unfold jmax; try reflexivity.
  f_equal; apply Rmax_right; exact Hl.
Qed.

Lemma sph_of_vec_pos (x y z : R) :
  0 < sqrt (x * x + y * y + z * z) ->
  sph_of_vec (vec3_of x y z) =
    Sph (Fin (sqrt (x * x + y * y + z * z)))
        (Fin (acos (y / sqrt (x * x + y * y + z * z)))) (Fin (Ratan2 x z)).
Proof.
  intro Hr. set (r := sqrt (x * x + y * y + z * z)) in *.
  assert (Hrr : r * r = x * x + y * y + z * z) by (apply sqrt_sqrt; nra).
  assert (Hy1 : y / r <= 1).
  { apply (Rmult_le_reg_r r); [exact Hr|]. unfold Rdiv.
    rewrite Rmult_assoc, Rinv_l, Rmult_1_r, Rmult_1_l by lra. nra. }
  assert (Hy2 : -1 <= y / r).
  { apply (Rmult_le_reg_r r); [exact Hr|]. unfold Rdiv.
    rewrite Rmult_assoc, Rinv_l, Rmult_1_r by lra. nra. }
  unfold sph_of_vec; cbn [vx vy vz vec3_of jmul jadd].
  rewrite jsqrt_fin by apply sum_squares_nonneg. fold r.
  assert (E : jeqb (Fin r) (Fin 0) = false).
  { unfold jeqb; destruct (Req_dec_T r 0); [lra | reflexivity]. }
  rewrite E, jdiv_fin by lra. unfold jclamp; rewrite jmin_fin, jmax_fin.
  rewrite Rmin_right, Rmax_right by lra.
  unfold jacos; destruct (Rle_dec (-1) (y / r)); [|lra].
  destruct (Rle_dec (y / r) 1); [|lra]. reflexivity.
Qed.

(** [update()] does not drift: when nothing is pending (no rotation, pan
    or zoom, no auto-rotation), the camera's distance to the target lies
    within [[minDistance, maxDistance]] and its polar angle within
    [[eps_phi, PI - eps_phi]], [update()] leaves the camera and the target
    where they are: the spherical round trip of the offset does not move
    the camera. *)
Theorem update_at_rest (c : ctl) (a1 a2 a3 b1 b2 b3 : R) :
  cam_pos c = vec3_of a1 a2 a3 ->
  target c = vec3_of b1 b2 b3 ->
  autoRotate (cfg c) = false ->
  sph_phi (sphericalDelta c) = Fin 0 ->
  sph_theta (sphericalDelta c) = Fin 0 ->
  panOffset c = vzero ->
  scale c = Fin 1 ->
  jle (minDistance (cfg c)) (vdistanceTo (cam_pos c) (target c)) ->
  jle (vdistanceTo (cam_pos c) (target c)) (maxDistance (cfg c)) ->
  eps_phi <= acos ((a2 - b2) / sqrt ((a1 - b1) * (a1 - b1) + (a2 - b2) * (a2 - b2)
                                     + (a3 - b3) * (a3 - b3))) <= PI - eps_phi ->
  cam_pos (update c) = cam_pos c /\ target (update c) = target c.
Proof.
  intros Hp Ht Har Hsp Hst Hpo Hsc Hmin Hmax Hphi.
  rewrite Hp, Ht, vdistanceTo_fin in Hmin, Hmax.
  destruct c as [cf p t st l s sd po zc sc rs ps ds]; cbn in *; subst p t po sc.
  unfold update; cbn [cfg cam_pos target currentState listening sph sphericalDelta
    panOffset zoomChanged scale rotateStart panStart dollyStart].
  rewrite Har; cbn [andb].
  change (vsub (vec3_of a1 a2 a3) (vec3_of b1 b2 b3))
    with (vec3_of (a1 - b1) (a2 - b2) (a3 - b3)).
  rewrite applyQuaternion_identity.
  destruct sd as [sr sp st']; cbn in Hsp, Hst; subst sp st'.
  cbv zeta.
  set (x := a1 - b1) in *. set (y := a2 - b2) in *. set (z := a3 - b3) in *.
  set (r := sqrt (x * x + y * y + z * z)) in *.
  assert (Hrr : r * r = x * x + y * y + z * z) by (apply sqrt_sqrt; nra).
  assert (Hr0 : 0 <= r) by apply sqrt_pos.
  destruct (Req_dec r 0) as [Hr|Hr].
  - assert (Hx : x = 0) by nra. assert (Hy : y = 0) by nra. assert (Hz : z = 0) by nra.
    assert (E : sph_of_vec (vec3_of x y z) = Sph (Fin r) (Fin 0) (Fin 0)).
    { unfold sph_of_vec; cbn [vx vy vz vec3_of jmul jadd].
      rewrite jsqrt_fin by apply sum_squares_nonneg. fold r.
      assert (E1 : jeqb (Fin r) (Fin 0) = true).
      { unfold jeqb; destruct (Req_dec_T r 0); [reflexivity | lra]. }
      rewrite E1; reflexivity. }
    rewrite E.
    cbn [cfg cam_pos target currentState listening sph sphericalDelta
      panOffset zoomChanged scale rotateStart panStart dollyStart
      sph_radius sph_phi sph_theta jadd jmul jsub].
    rewrite Rmult_1_r, !Rplus_0_r.
    rewrite (jclamp_inside _ _ r Hmin Hmax), jmin_fin, jmax_fin.
    unfold vec_of_sph, applyQuaternion, vadd, vzero, vec3_of, quat_identity;
      cbn [sph_radius sph_phi sph_theta jsin jcos jadd jmul jsub jneg vx vy vz qx qy qz qw].
    replace a1 with (b1 + x) by (unfold x; ring).
    replace a2 with (b2 + y) by (unfold y; ring).
    replace a3 with (b3 + z) by (unfold z; ring).
    rewrite Hr, Hx, Hy, Hz. split; f_equal; f_equal; ring.
  - rewrite sph_of_vec_pos by (fold r; lra). fold r.
    cbn [cfg cam_pos target currentState listening sph sphericalDelta
      panOffset zoomChanged scale rotateStart panStart dollyStart
      sph_radius sph_phi sph_theta jadd jmul jsub vx vy vz vec3_of vzero vadd].
    rewrite Rmult_1_r, !Rplus_0_r.
    rewrite (jclamp_inside _ _ r Hmin Hmax).
    rewrite jmin_fin, jmax_fin, Rmin_right, Rmax_right by lra.
    unfold vec_of_sph, applyQuaternion, vadd, vzero, vec3_of, quat_identity;
      cbn [sph_radius sph_phi sph_theta jsin jcos jadd jmul jsub jneg vx vy vz qx qy qz qw].
    set (rho := sqrt (x * x + z * z)).
    assert (Hrho0 : 0 < x * x + z * z).
    { destruct (Rle_lt_dec (x * x + z * z) 0) as [H0|H0]; [|exact H0].
      exfalso. assert (Ey : (y / r) * (y / r) = 1).
      { transitivity ((y * y) / (r * r)); [field; exact Hr|].
        assert (Hxz : x * x + z * z = 0) by nra.
        assert (Hyy : y * y <> 0) by (intro E0; apply Hr; nra).
        rewrite Hrr. replace (x * x + y * y + z * z) with (y * y) by nra.
        field; intro E0; apply Hyy; rewrite E0; ring. }
      unfold eps_phi in Hphi. pose proof PI_RGT_0 as HPI.
      destruct (Rle_lt_dec 0 (y / r)) as [Hs|Hs].
      + replace (y / r) with 1 in Hphi by nra. rewrite acos_1 in Hphi. lra.
      + replace (y / r) with (Ropp 1) in Hphi by nra.
        rewrite acos_opp, acos_1 in Hphi. lra. }
    assert (Hrho : 0 < rho) by (apply sqrt_lt_R0; exact Hrho0).
    assert (Hrhorho : rho * rho = x * x + z * z) by (apply sqrt_sqrt; lra).
    assert (Hr1 : 0 < r) by lra.
    assert (Hu : -1 <= y / r <= 1).
    { split; apply (Rmult_le_reg_r r); try exact Hr1; unfold Rdiv;
        rewrite Rmult_assoc, Rinv_l, Rmult_1_r by lra; nra. }
    rewrite (cos_acos _ Hu), (sin_acos _ Hu).
    assert (Es : sqrt (1 - (y / r)²) = rho / r).
    { apply sqrt_unique_pos.
      - unfold Rdiv; apply Rmult_le_pos; [lra | left; apply Rinv_0_lt_compat; lra].
      - unfold Rsqr. transitivity ((rho * rho) / (r * r)); [field; lra|].
        rewrite Hrhorho. field_simplify_eq; [|lra]. lra. }
    rewrite Es.
    destruct (Ratan2_sin_cos x z Hrho0) as [Hsin Hcos]. fold rho in Hsin, Hcos.
    rewrite Hsin, Hcos.
    replace a1 with (b1 + x) by (unfold x; ring).
    replace a2 with (b2 + y) by (unfold y; ring).
    replace a3 with (b3 + z) by (unfold z; ring).
    split; f_equal; f_equal; field; lra.
Qed.

(** ** Instances *)

Lemma constructed_cfg_ok : cfg_ok (cfg (constructed_ctl 800)).
Proof.
  split; [exists 800; split; [reflexivity | lra]|].
  split; [exists 0; split; [reflexivity | left; reflexivity]|].
  split; [apply jfin_Fin|]. split; apply jfin_Fin.
Qed.

Lemma constructed_ctl_fin : ctl_fin (constructed_ctl 800).
Proof.
  repeat split; cbn; try apply vfin_vec3_of; try apply v2fin_of; apply jfin_Fin.
Qed.

Lemma pan_directions_witness :
  cfg_ok (cfg (constructed_ctl 800)) /\ ctl_fin (constructed_ctl 800) /\
  exists px py pz ex ey ez ox oz k2,
    panOffset (constructed_ctl 800) = vec3_of px py pz /\
    vsub (cam_pos (constructed_ctl 800)) (target (constructed_ctl 800)) = vec3_of ex ey ez /\
    panOffset (pan (Fin 3) (Fin 2) (constructed_ctl 800)) =
      vec3_of (px + ox) (py + k2) (pz + oz) /\
    ox * ex + oz * ez = 0 /\ (3 = 0 -> ox = 0 /\ oz = 0) /\ (2 = 0 -> k2 = 0).
Proof.
  split; [exact constructed_cfg_ok|]. split; [exact constructed_ctl_fin|].
  exact (pan_directions (constructed_ctl 800) 3 2 constructed_cfg_ok constructed_ctl_fin).
Defined.

Lemma zoom_step_factor_witness :
  enabled (cfg (constructed_ctl 800)) = true /\
  vsub (cam_pos (constructed_ctl 800)) (target (constructed_ctl 800)) =
    vec3_of (0 - 0) (50 - 0) (120 - 0) /\
  scale (constructed_ctl 800) = Fin 1 /\
  sph_radius (sph (fst (onMouseWheel (-100) (constructed_ctl 800)))) =
    jclamp (Fin (sqrt ((0 - 0) * (0 - 0) + (50 - 0) * (50 - 0) + (120 - 0) * (120 - 0))
                 * (1 * (if Rlt_dec (-100) 0 then 0.95
                         else if Rlt_dec 0 (-100) then 1 / 0.95 else 1))))
      (minDistance (cfg (constructed_ctl 800))) (maxDistance (cfg (constructed_ctl 800))).
Proof.
  split; [reflexivity|]. split; [reflexivity|]. split; [reflexivity|].
  apply (proj1 (zoom_step_factor (constructed_ctl 800) (0 - 0) (50 - 0) (120 - 0) 1
                  eq_refl eq_refl eq_refl)).
Defined.

Lemma pinch_demo_start_distance :
  v2y (dollyStart (onTouchStart [(0, 0); (3, 4)] (constructed_ctl 800))) =
    Fin (sqrt ((0 - 3) * (0 - 3) + (0 - 4) * (0 - 4))).
Proof. unfold onTouchStart; cbn -[jsqrt]. unfold touch_distance; cbn.
  rewrite jsqrt_fin by nra; reflexivity. Qed.

Lemma pinch_demo_move_distance :
  touch_distance (0, 0) (6, 8) = Fin (sqrt ((0 - 6) * (0 - 6) + (0 - 8) * (0 - 8))).
Proof. unfold touch_distance; cbn. rewrite jsqrt_fin by nra; reflexivity. Qed.

Lemma pinch_zoom_direction_witness :
  let c := onTouchStart [(0, 0); (3, 4)] (constructed_ctl 800) in
  let d0 := sqrt ((0 - 3) * (0 - 3) + (0 - 4) * (0 - 4)) in
  let d := sqrt ((0 - 6) * (0 - 6) + (0 - 8) * (0 - 8)) in
  (enabled (cfg c) = true /\ scale c = Fin 1 /\ 0 < 1 /\ v2y (dollyStart c) = Fin d0 /\
   0 < d0 /\ touch_distance (0, 0) (6, 8) = Fin d /\ 0 < d) /\
  exists s', scale (onTouchMove [(0, 0); (6, 8)] c) = Fin s' /\ 0 < s' /\
    (d0 < d -> s' < 1) /\ (d < d0 -> 1 < s') /\ (d = d0 -> s' = 1) /\
    v2y (dollyStart (onTouchMove [(0, 0); (6, 8)] c)) = Fin d.
Proof.
  cbv zeta.
  assert (H0 : 0 < sqrt ((0 - 3) * (0 - 3) + (0 - 4) * (0 - 4))) by (apply sqrt_lt_R0; nra).
  assert (H1 : 0 < sqrt ((0 - 6) * (0 - 6) + (0 - 8) * (0 - 8))) by (apply sqrt_lt_R0; nra).
  split.
  - split; [reflexivity|]. split; [reflexivity|]. split; [lra|].
    split; [exact pinch_demo_start_distance|]. split; [exact H0|].
    split; [exact pinch_demo_move_distance | exact H1].
  - apply (pinch_zoom_direction (onTouchStart [(0, 0); (3, 4)] (constructed_ctl 800))
             (0, 0) (6, 8) 1 _ _ eq_refl eq_refl ltac:(lra) pinch_demo_start_distance H0
             pinch_demo_move_distance H1).
Defined.

Lemma pending_motion_decay_witness :
  (autoRotate (cfg damped_demo) = false /\ dampingFactor (cfg damped_demo) = Fin 0.05 /\
   sph_phi (sphericalDelta damped_demo) = Fin 0 /\
   sph_theta (sphericalDelta damped_demo) = Fin (0 - 0.5) /\
   panOffset damped_demo = vec3_of 0 0 0) /\
  let k := if enableDamping (cfg damped_demo) then 1 - 0.05 else 0 in
  let c' := Nat.iter 3 update damped_demo in
  sph_phi (sphericalDelta c') = Fin (0 * k ^ 3) /\
  sph_theta (sphericalDelta c') = Fin ((0 - 0.5) * k ^ 3) /\
  panOffset c' = vec3_of (0 * k ^ 3) (0 * k ^ 3) (0 * k ^ 3).
Proof.
  split; [repeat split|].
  exact (pending_motion_decay damped_demo 3 0.05 0 (0 - 0.5) 0 0 0
           eq_refl eq_refl eq_refl eq_refl eq_refl).
Defined.

Lemma disabled_controls_ignore_input_witness :
  enabled (cfg (set_cfg (constructed_ctl 800) disabled_cfg)) = false /\
  fold_left (fun c i => fst (handle c i)) pinch_demo_inputs
    (set_cfg (constructed_ctl 800) disabled_cfg) =
  Nat.iter (List.length (filter (fun i => match i with AnimationFrame => true | _ => false end)
                           pinch_demo_inputs))
    update (set_cfg (constructed_ctl 800) disabled_cfg).
Proof.
  split; [reflexivity|].
  exact (disabled_controls_ignore_input (set_cfg (constructed_ctl 800) disabled_cfg)
           pinch_demo_inputs eq_refl).
Defined.

Lemma focusOnObject_schedules_witness :
  let s := scenario_sys (constructed_ctl 800) in
  (vfin (cam_pos (controls s)) /\ vfin (target (controls s))) /\
  focusOnObject "earth" 0 s =
    set_controls_focuses s (update (controls s))
      (focuses s ++ [{| f_start := cam_pos (controls s);
                        f_end := vadd (planet_world_position (createPlanet scenario_body 0))
                                   (vec3_of (2 * 8) (2 * 8 * 0.5) (2 * 8));
                        f_targetPosition := planet_world_position (createPlanet scenario_body 0);
                        f_startTime := 0 |}]).
Proof.
  cbv zeta. split; [split; apply vfin_vec3_of|].
  apply (proj2 (focusOnObject_schedules "earth" 0 (scenario_sys (constructed_ctl 800))
                  (vfin_vec3_of 0 50 120) (vfin_vec3_of 0 0 0))).
  right. split; [reflexivity|]. exists (createPlanet scenario_body 0).
  split; [reflexivity|]. split; reflexivity.
Defined.

Lemma unpaused_frames_uniform_witness :
  let s := scenario_sys (constructed_ctl 800) in
  let p := createPlanet scenario_body 0 in
  (isPaused s = false /\ assoc "earth" (planets s) = Some p) /\
  let g := globalSpeedMultiplier s in
  let w := g * p_individualSpeed p in
  let s' := Nat.iter 5 animate s in
  sun_rot_y s' = sun_rot_y s + INR 5 * (0.005 * g) /\
  exists p', assoc "earth" (planets s') = Some p' /\
    p_data p' = p_data p /\ p_individualSpeed p' = p_individualSpeed p /\
    p_angle p' = p_angle p + INR 5 * (pd_orbitalSpeed (p_data p) * w) /\
    p_mesh_rot_y p' = p_mesh_rot_y p + INR 5 * (pd_rotationSpeed (p_data p) * w) /\
    ((0 < 5)%nat -> p_orbit_rot_y p' = p_angle p').
Proof.
  cbv zeta. split; [split; reflexivity|].
  exact (unpaused_frames_uniform 5 (scenario_sys (constructed_ctl 800)) "earth"
           (createPlanet scenario_body 0) eq_refl eq_refl).
Defined.

Lemma frame_orbits_circular_witness :
  isPaused solar_demo = false /\
  (forall k p, assoc k (planets (animate solar_demo)) = Some p ->
     planet_world_position p =
       vec3_of (pd_distance (p_data p) * cos (p_angle p)) 0
               (- (pd_distance (p_data p) * sin (p_angle p)))) /\
  (forall k m, assoc k (moons (animate solar_demo)) = Some m ->
     m_pos_x m * m_pos_x m + m_pos_z m * m_pos_z m = m_distance m * m_distance m).
Proof.
  split; [reflexivity|].
  exact (frame_orbits_circular solar_demo eq_refl).
Defined.

Lemma start_distance :
  sqrt ((0 - 0) * (0 - 0) + (50 - 0) * (50 - 0) + (120 - 0) * (120 - 0)) = 130.
Proof. apply sqrt_unique_pos; lra. Qed.

Lemma start_polar_angle :
  eps_phi <= acos ((50 - 0) / sqrt ((0 - 0) * (0 - 0) + (50 - 0) * (50 - 0)
                                    + (120 - 0) * (120 - 0))) <= PI - eps_phi.
Proof.
  rewrite start_distance. replace ((50 - 0) / 130) with (5 / 13) by (field; lra).
  assert (Hu : -1 <= 5 / 13 <= 1) by lra.
  pose proof (acos_bound (5 / 13)) as [H0 H1].
  pose proof (cos_acos _ Hu) as Hc. pose proof PI2_1 as HPI.
  unfold eps_phi. split.
  - destruct (Rle_lt_dec (PI / 3) (acos (5 / 13))) as [H|H]; [lra|].
    pose proof (cos_decreasing_1 (acos (5 / 13)) (PI / 3)) as Hd.
    rewrite Hc, cos_PI3 in Hd. lra.
  - destruct (Rle_lt_dec (acos (5 / 13)) (PI / 2)) as [H|H]; [lra|].
    pose proof (cos_decreasing_1 (PI / 2) (acos (5 / 13))) as Hd.
    rewrite Hc, cos_PI2 in Hd. lra.
Qed.

(** The controller as constructed: its first [update()] keeps the camera
    at (0, 50, 120) and the target at the origin. *)
Lemma update_at_rest_witness :
  cam_pos (update (constructed_ctl 800)) = cam_pos (constructed_ctl 800) /\
  target (update (constructed_ctl 800)) = target (constructed_ctl 800).
Proof.
  apply (update_at_rest (constructed_ctl 800) 0 50 120 0 0 0);
    try reflexivity; try apply start_polar_angle;
    change (vdistanceTo (vec3_of 0 50 120) (vec3_of 0 0 0)) with
      (vdistanceTo (cam_pos (constructed_ctl 800)) (target (constructed_ctl 800)));
    unfold constructed_ctl, mk_ctl; cbn [cam_pos target cfg];
    unfold vzero; rewrite vdistanceTo_fin, start_distance; cbn; lra.
Defined.
